(** * torchcam: the depth-scanning camera loop of [torchcam/camera.py]

    A shallow embedding of class [DepthCamera]: the scale property pair,
    the static helper [__resize], [capture] and the blocking loop [run],
    over an explicit model of the platform the class drives (OpenCV
    camera and windows, the clock, the depth estimator). *)

From Stdlib Require Import ZArith QArith String Ascii List Lia.
From stdpp Require Import base option list strings gmap pretty.

Local Open Scope string_scope.
Local Open Scope list_scope.
Local Open Scope Z_scope.

(** ** Python values and exceptions *)

Module Py.

(** The exception classes the loop can meet.  The last three derive from
    [BaseException] only: [except Exception] does not catch them. *)
Inductive exn_class :=
| ZeroDivisionError
| AttributeError
| TypeError
| ValueError
| cv2_error
| RuntimeError
| OverflowError
| KeyboardInterrupt
| SystemExit
| GeneratorExit.

(** [isinstance(e, Exception)] *)
Definition isinstance_Exception (c : exn_class) : bool :=
  match c with
  | KeyboardInterrupt | SystemExit | GeneratorExit => false
  | _ => true
  end.

(** An exception object: its class and what [str(e)] gives. *)
Record exn := Exn { exn_cls : exn_class; exn_str : string }.

(** Outcome of a statement: a value, a raised exception, or the
    observation budget of a loop ran out while it was still running. *)
Inductive res (A : Type) :=
| Ret (a : A)
| Raise (e : exn)
| Timeout.
Arguments Ret {A} a.
Arguments Raise {A} e.
Arguments Timeout {A}.

(** [round(x)] with one argument on a finite float: nearest integer, ties
    to the even one.  A finite float is read as the rational it
    denotes. *)
Definition round (x : Q) : Z :=
  let n := Qnum x in
  let d := Z.pos (Qden x) in
  let q := n / d in
  let r := n mod d in
  match 2 * r ?= d with
  | Lt => q
  | Gt => q + 1
  | Eq => if Z.even q then q else q + 1
  end.

(** *** Floats

    A Python float is an IEEE 754 binary64 number: 53 bits of precision,
    the smallest positive one is [2^-1074], and a result of magnitude
    [2^1024] or more is an infinity.  Every operation gives the float
    nearest to the exact result, ties to the even significand.  A finite
    float is kept as the rational it denotes (the sign of a zero is not
    kept: nothing below tells [0.0] from [-0.0]). *)
Inductive float :=
| Finite (x : Q)
| Infinity (negative : bool).

(** [x / 2^e] *)
Definition shift (x : Q) (e : Z) : Q :=
  if 0 <=? e then Qnum x # (Qden x * Z.to_pos (2 ^ e))
  else (Qnum x * 2 ^ (- e)) # Qden x.

(** [m * 2^e] *)
Definition scaled (m e : Z) : Q :=
  if 0 <=? e then inject_Z (m * 2 ^ e) else m # Z.to_pos (2 ^ (- e)).

(** For [x] other than zero, the [e] with [2^52 <= |x| / 2^e < 2^53]:
    the binary logarithms of numerator and denominator give it up to
    one. *)
Definition exponent (x : Q) : Z :=
  let e0 := Z.log2 (Z.abs (Qnum x)) - Z.log2 (Z.pos (Qden x)) - 53 in
  if 2 ^ 53 <=? Z.abs (Qnum (shift x e0)) / Z.pos (Qden (shift x e0))
  then e0 + 1 else e0.

(** The float nearest to the exact value [x]: a multiple of [2^e], where
    [e] is the exponent of [x], or [-1074] for a smaller [x]. *)
Definition nearest (x : Q) : float :=
  if Qnum x =? 0 then Finite 0
  else
    let e := Z.max (-1074) (exponent x) in
    let m := round (shift x e) in
    if (0 <=? e) && (2 ^ 1024 <=? Z.abs m * 2 ^ e)
    then Infinity (Qnum x <? 0)
    else Finite (scaled m e).

(** [float(n)] for an int, which is what [n * y] and [n / y] do to [n]
    first when [y] is a float *)
Definition float_of_int (n : Z) : exn + Q :=
  match nearest (inject_Z n) with
  | Finite x => inr x
  | Infinity _ => inl (Exn OverflowError "int too large to convert to float")
  end.

(** [x - y] on finite floats *)
Definition float_sub (x y : Q) : float := nearest (x - y).

(** [n * y] for an int and a finite float *)
Definition int_mul_float (n : Z) (y : Q) : exn + float :=
  match float_of_int n with
  | inl e => inl e
  | inr x => inr (nearest (x * y))
  end.

(** [1 / x] on a float: raises on a zero divisor. *)
Definition truediv_1 (x : float) : exn + float :=
  match x with
  | Finite x =>
      if Qeq_bool x 0 then inl (Exn ZeroDivisionError "float division by zero")
      else inr (nearest (/ x))
  | Infinity _ => inr (Finite 0)
  end.

(** [round(x)] with one argument on a float *)
Definition round_float (x : float) : exn + Z :=
  match x with
  | Finite x => inr (round x)
  | Infinity _ => inl (Exn OverflowError "cannot convert float infinity to integer")
  end.

(** [round(n * y)] *)
Definition round_product (n : Z) (y : Q) : exn + Z :=
  match int_mul_float n y with
  | inl e => inl e
  | inr p => round_float p
  end.

(** [str(n)] for an int *)
Definition str_int (n : Z) : string := pretty n.

(** [ord("q")] *)
Definition ord (c : ascii) : Z := Z.of_nat (nat_of_ascii c).

Definition upper_ascii (c : ascii) : ascii :=
  let n := nat_of_ascii c in
  if (97 <=? n)%nat && (n <=? 122)%nat then ascii_of_nat (n - 32) else c.

(** [s.upper()] on ASCII text *)
Fixpoint upper (s : string) : string :=
  match s with
  | EmptyString => EmptyString
  | String c s' => String (upper_ascii c) (upper s')
  end.

End Py.

Export Py.

(** ** [datetime.datetime.now()] and [strftime] *)

Module Datetime.

Inductive month :=
| January | February | March | April | May | June
| July | August | September | October | November | December.

(** [%B] in the C locale *)
Definition month_name (m : month) : string :=
  match m with
  | January => "January" | February => "February" | March => "March"
  | April => "April" | May => "May" | June => "June"
  | July => "July" | August => "August" | September => "September"
  | October => "October" | November => "November" | December => "December"
  end.

Record datetime := {
  year : nat;
  mon : month;
  day : nat;
  hour : nat;
  minute : nat;
  second : nat;
  microsecond : nat
}.

(** The ranges a [datetime] object keeps for its clock fields. *)
Definition valid_clock (d : datetime) : Prop :=
  (hour d < 24 ∧ minute d < 60 ∧ second d < 60)%nat.

(** The character of a decimal digit. *)
Definition digit_char (d : nat) : ascii := ascii_of_nat (48 + d).
Arguments digit_char : simpl never.

(** [%d], [%H], [%M], [%S]: decimal, zero-padded to two characters *)
Definition pad2 (n : nat) : string :=
  if (n <? 10)%nat then "0" +:+ pretty n else pretty n.

(** [strftime("%d %B %Y")] *)
Definition strftime_date (d : datetime) : string :=
  pad2 (day d) +:+ " " +:+ month_name (mon d) +:+ " " +:+ pretty (year d).

(** [strftime("%H:%M:%S")] *)
Definition strftime_clock (d : datetime) : string :=
  pad2 (hour d) +:+ ":" +:+ pad2 (minute d) +:+ ":" +:+ pad2 (second d).

End Datetime.

Export Datetime.

(** ** The OpenCV primitives the class calls *)

Module Cv2.

(** The arguments of one [cv2.putText] call. *)
Record overlay := {
  ov_text : string;
  ov_org : Z * Z;
  ov_fontFace : Z;
  ov_fontScale : Q;
  ov_color : Z * Z * Z;
  ov_thickness : Z
}.

(** Pixel contents are kept symbolic: the class never looks at a pixel,
    it only hands arrays to the platform.  A content is the history of
    the platform operations that produced it. *)
Inductive pixels :=
| Sensor (n : nat)                                  (* what the sensor delivered *)
| Annotated (o : overlay) (p : pixels)              (* [putText] drew on [p] *)
| FalseColor (p : pixels)                           (* a depth map of [p] *)
| Resampled (dsize : Z * Z) (interp : Z) (p : pixels).  (* [resize] of [p] *)

(** A numpy array: its [shape] tuple and its contents. *)
Record ndarray := { shape : list Z; px : pixels }.

Definition FONT_HERSHEY_SIMPLEX : Z := 0.
Definition INTER_AREA : Z := 3.

(** Largest value of the C [int] of [cv::Size]. *)
Definition INT_MAX : Z := 2147483647.

(** Has this overlay been drawn on the contents at some point? *)
Fixpoint annotated_with (text : string) (p : pixels) : bool :=
  match p with
  | Sensor _ => false
  | Annotated o p' => String.eqb (ov_text o) text || annotated_with text p'
  | FalseColor p' => annotated_with text p'
  | Resampled _ _ p' => annotated_with text p'
  end.

Fixpoint unannotated (p : pixels) : bool :=
  match p with
  | Sensor _ => true
  | Annotated _ _ => false
  | FalseColor p' => unannotated p'
  | Resampled _ _ p' => unannotated p'
  end.

(** [cv2.putText(img, ...)] on the array value: draws in place. *)
Definition draw (o : overlay) (img : ndarray) : ndarray :=
  {| shape := shape img; px := Annotated o (px img) |}.

(** [cv::Size::empty()] *)
Definition size_empty (sz : Z * Z) : bool :=
  (fst sz <=? 0) || (snd sz <=? 0).

(** The [(width, height)] of an array and what follows them in the shape
    of a result: a single channel is dropped, several are kept. *)
Definition src_size (sh : list Z) : option ((Z * Z) * list Z) :=
  match sh with
  | [h; w] => Some ((w, h), [])
  | [h; w; c] => Some ((w, h), if c =? 1 then [] else [c])
  | _ => None
  end.

(** [cv2.resize(src, dsize, interpolation=...)] with [fx = fy = 0], up to
    the allocation of the result: the source must be a non-empty image,
    [dsize = (width, height)] must fit the C [int] and be non-empty (an
    empty [dsize] asks for the size to be derived from [fx], [fy], which
    are zero here, and the assertion on them fails).  The result is a
    new array, the source is only read.  Whether there is memory for the
    result is the platform's answer, see [cv2_resize] below. *)
Definition resize (src : option ndarray) (dsize : Z * Z) (interp : Z)
  : exn + ndarray :=
  match src with
  | None => inl (Exn cv2_error "resize: src is not a numpy array")
  | Some a =>
      match src_size (shape a) with
      | None => inl (Exn cv2_error "resize: src is not an image")
      | Some (ssize, tail) =>
          if size_empty ssize
          then inl (Exn cv2_error "resize: !ssize.empty()")
          else if (INT_MAX <? fst dsize) || (INT_MAX <? snd dsize)
                  || (fst dsize <? - INT_MAX - 1) || (snd dsize <? - INT_MAX - 1)
          then inl (Exn cv2_error "resize: cannot parse dsize")
          else if size_empty dsize
          then inl (Exn cv2_error "resize: inv_scale_x > 0")
          else inr {| shape := snd dsize :: fst dsize :: tail;
                      px := Resampled dsize interp (px a) |}
      end
  end.

Arguments resize : simpl never.

End Cv2.

Export Cv2.

(** ** The depth estimator the camera owns *)

(** Modelled from the spec: [torchcam/base.py] with class [DepthEstimator]
    is not among the sources.  The spec gives what the loop consumes of it:
    [colormap(frame) -> frame], a pure transform with no side effect beyond
    compute, the read-only flag [live_render] and the read-only string
    [device].  The transform is a field of the record, so every statement
    below holds for whatever it computes, also when it raises (on [None],
    on an array it cannot process). *)
Record DepthEstimator := {
  colormap : option ndarray -> exn + ndarray;
  live_render : bool;
  device : string
}.

(** ** The object, the platform and the machine state *)

(** The instance attributes [__init__] sets; [self.camera] is the handle
    the platform below answers for. *)
Record DepthCamera := {
  camera_num : Z;
  is_running : bool;
  __scale : Q;                      (* a finite float *)
  estimator : DepthEstimator
}.

(** What the world answers to the calls that leave the program: the n-th
    call of each primitive has its own answer. *)
Record Platform := {
  perf_counter_at : nat -> Q;
  camera_read_at : nat -> exn + (bool * option ndarray);
  resize_at : nat -> option exn;
  imshow_at : nat -> option exn;
  waitKey_at : nat -> exn + Z;
  now_at : nat -> datetime
}.

(** What can be observed of an execution, in order.  [ECall_capture] marks
    entry into the method [capture], with the array its argument refers to
    as it is at that moment. *)
Inductive event :=
| EPrint (line : string)
| ERead (ret : bool) (frame : option nat)
| EColormap (arg : option ndarray)
| EPutText (img : nat) (o : overlay)
| EImshow (winname : string) (mat : ndarray)
| EWaitKey (delay : Z) (key : Z)
| ECall_capture (frame : option nat) (seen : option ndarray)
| ERelease
| EDestroyAllWindows.

(** How many calls of each platform primitive were made so far. *)
Record cursor := {
  n_perf : nat;
  n_read : nat;
  n_resize : nat;
  n_show : nat;
  n_key : nat;
  n_now : nat
}.

(** The state a statement runs in: the object [self], the arrays alive
    (a reference is an index into [heap]), the windows on screen by title,
    the observations so far and the position in the world's answers. *)
Record machine := {
  self : DepthCamera;
  heap : list ndarray;
  windows : gmap string ndarray;
  out : list event;
  cur : cursor
}.

Definition with_self (c : DepthCamera) (m : machine) : machine :=
  {| self := c; heap := heap m; windows := windows m; out := out m; cur := cur m |}.
Definition with_heap (h : list ndarray) (m : machine) : machine :=
  {| self := self m; heap := h; windows := windows m; out := out m; cur := cur m |}.
Definition with_windows (ws : gmap string ndarray) (m : machine) : machine :=
  {| self := self m; heap := heap m; windows := ws; out := out m; cur := cur m |}.
Definition with_out (o : list event) (m : machine) : machine :=
  {| self := self m; heap := heap m; windows := windows m; out := o; cur := cur m |}.
Definition with_cur (c : cursor) (m : machine) : machine :=
  {| self := self m; heap := heap m; windows := windows m; out := out m; cur := c |}.

Definition emit (e : event) (m : machine) : machine :=
  with_out (out m ++ [e]) m.

(** The array a Python value refers to; [None] refers to none. *)
Definition deref (m : machine) (v : option nat) : option ndarray :=
  match v with
  | None => None
  | Some r => heap m !! r
  end.

(** ** Statements: state, exceptions, observation budget *)

Definition M (A : Type) : Type := machine -> res A * machine.

Definition ret {A} (a : A) : M A := fun m => (Ret a, m).

Definition bind {A B} (c : M A) (k : A -> M B) : M B :=
  fun m =>
    match c m with
    | (Ret a, m') => k a m'
    | (Raise e, m') => (Raise e, m')
    | (Timeout, m') => (Timeout, m')
    end.

Definition raise {A} (e : exn) : M A := fun m => (Raise e, m).

Declare Scope py_scope.
Delimit Scope py_scope with py.
Notation "x <- c ;;; k" := (bind c (fun x => k))
  (at level 100, c at next level, right associativity) : py_scope.
Notation "c ;;; k" := (bind c (fun _ => k))
  (at level 100, right associativity) : py_scope.
Local Open Scope py_scope.

Definition lift {A} (r : exn + A) : M A :=
  match r with
  | inl e => raise e
  | inr a => ret a
  end.

(** Control leaving a loop body: fall to the next test, or [break]. *)
Inductive ctl := Next | Break.

(** [try: body  except Exception as e: handler(e)  finally: final].
    A raised exception that is an [Exception] runs the handler; any other
    passes.  [final] runs on every way out; what was in flight is raised
    again after it, unless [final] itself raises. *)
Definition try_except_Exception_finally
    (body : M unit) (handler : exn -> M unit) (final : M unit) : M unit :=
  fun m =>
    let after (pending : option exn) (m' : machine) : res unit * machine :=
      match final m' with
      | (Ret _, m'') =>
          match pending with
          | Some e => (Raise e, m'')
          | None => (Ret tt, m'')
          end
      | other => other
      end in
    match body m with
    | (Ret _, m1) => after None m1
    | (Raise e, m1) =>
        if isinstance_Exception (exn_cls e)
        then match handler e m1 with
             | (Ret _, m2) => after None m2
             | (Raise e', m2) => after (Some e') m2
             | (Timeout, m2) => (Timeout, m2)
             end
        else after (Some e) m1
    | (Timeout, m1) => (Timeout, m1)
    end.

(** [while self.is_running: body], observed for at most [fuel] passes. *)
Fixpoint while_is_running (fuel : nat) (body : M ctl) : M unit :=
  fun m =>
    if is_running (self m)
    then match fuel with
         | O => (Timeout, m)
         | S fuel' =>
             match body m with
             | (Ret Next, m1) => while_is_running fuel' body m1
             | (Ret Break, m1) => (Ret tt, m1)
             | (Raise e, m1) => (Raise e, m1)
             | (Timeout, m1) => (Timeout, m1)
             end
         end
    else (Ret tt, m).

(** ** The calls that leave the program *)

Section Calls.

Context (w : Platform).

Definition print (line : string) : M unit :=
  fun m => (Ret tt, emit (EPrint line) m).

(** A new array: its reference is the next free index. *)
Definition alloc (a : ndarray) : M nat :=
  fun m => (Ret (length (heap m)), with_heap (heap m ++ [a]) m).

(** [time.perf_counter()] *)
Definition perf_counter : M Q :=
  fun m =>
    let c := cur m in
    (Ret (perf_counter_at w (n_perf c)),
     with_cur {| n_perf := S (n_perf c); n_read := n_read c; n_resize := n_resize c;
                 n_show := n_show c; n_key := n_key c; n_now := n_now c |} m).

(** [datetime.datetime.now()] *)
Definition datetime_now : M datetime :=
  fun m =>
    let c := cur m in
    (Ret (now_at w (n_now c)),
     with_cur {| n_perf := n_perf c; n_read := n_read c; n_resize := n_resize c;
                 n_show := n_show c; n_key := n_key c; n_now := S (n_now c) |} m).

(** [self.camera.read()]: a pair of the success flag and a fresh array,
    or [None] in its place. *)
Definition camera_read : M (bool * option nat) :=
  fun m =>
    let c := cur m in
    let m1 := with_cur {| n_perf := n_perf c; n_read := S (n_read c); n_resize := n_resize c;
                          n_show := n_show c; n_key := n_key c;
                          n_now := n_now c |} m in
    match camera_read_at w (n_read c) with
    | inl e => (Raise e, m1)
    | inr (ok, None) => (Ret (ok, None), emit (ERead ok None) m1)
    | inr (ok, Some a) =>
        let r := length (heap m1) in
        (Ret (ok, Some r), emit (ERead ok (Some r)) (with_heap (heap m1 ++ [a]) m1))
    end.

(** [self.estimator.colormap(frame)]: reads the array, gives a new one. *)
Definition estimator_colormap (frame : option nat) : M (option nat) :=
  fun m =>
    let m1 := emit (EColormap (deref m frame)) m in
    match colormap (estimator (self m)) (deref m frame) with
    | inl e => (Raise e, m1)
    | inr a => (Ret (Some (length (heap m1))), with_heap (heap m1 ++ [a]) m1)
    end.

(** [cv2.putText(img, text, org, fontFace, fontScale, color, thickness)]:
    draws on the array [img] refers to, in place.  [None] is taken by
    the binding as an empty image: there is nothing to draw on, and the
    call returns. *)
Definition cv2_putText (img : option nat) (o : overlay) : M unit :=
  fun m =>
    match img with
    | Some r =>
        match heap m !! r with
        | Some a => (Ret tt, emit (EPutText r o) (with_heap (<[r := draw o a]> (heap m)) m))
        | None => (Raise (Exn cv2_error "putText: img is not a numpy array"), m)
        end
    | None => (Ret tt, m)
    end.

(** [cv2.imshow(winname, mat)]: the window of that title shows the array
    as it is now; the window is created when there is none of that title. *)
Definition cv2_imshow (winname : string) (mat : option nat) : M unit :=
  fun m =>
    let c := cur m in
    let m1 := with_cur {| n_perf := n_perf c; n_read := n_read c; n_resize := n_resize c;
                          n_show := S (n_show c); n_key := n_key c;
                          n_now := n_now c |} m in
    match deref m mat with
    | None => (Raise (Exn cv2_error "imshow: mat is not a numpy array"), m1)
    | Some a =>
        match imshow_at w (n_show c) with
        | Some e => (Raise e, m1)
        | None => (Ret tt, emit (EImshow winname a)
                             (with_windows (<[winname := a]> (windows m1)) m1))
        end
    end.

(** [cv2.waitKey(delay)] *)
Definition cv2_waitKey (delay : Z) : M Z :=
  fun m =>
    let c := cur m in
    let m1 := with_cur {| n_perf := n_perf c; n_read := n_read c; n_resize := n_resize c;
                          n_show := n_show c; n_key := S (n_key c);
                          n_now := n_now c |} m in
    match waitKey_at w (n_key c) with
    | inl e => (Raise e, m1)
    | inr k => (Ret k, emit (EWaitKey delay k) m1)
    end.

(** [self.camera.release()] *)
Definition camera_release : M unit :=
  fun m => (Ret tt, emit ERelease m).

(** [cv2.destroyAllWindows()] *)
Definition cv2_destroyAllWindows : M unit :=
  fun m => (Ret tt, emit EDestroyAllWindows (with_windows ∅ m)).

(** [cv2.resize(image, dsize, interpolation=...)] on references: when
    the arguments are accepted the result is allocated, which the
    platform can refuse. *)
Definition cv2_resize (image : option nat) (dsize : Z * Z) (interp : Z) : M (option nat) :=
  fun m =>
    let c := cur m in
    let m1 := with_cur {| n_perf := n_perf c; n_read := n_read c;
                          n_resize := S (n_resize c); n_show := n_show c;
                          n_key := n_key c; n_now := n_now c |} m in
    match Cv2.resize (deref m image) dsize interp with
    | inl e => (Raise e, m1)
    | inr a =>
        match resize_at w (n_resize c) with
        | Some e => (Raise e, m1)
        | None => (Ret (Some (length (heap m1))), with_heap (heap m1 ++ [a]) m1)
        end
    end.

(** ** The class [DepthCamera] *)

(** Attribute reads and writes on [self] *)
Definition get_is_running : M bool := fun m => (Ret (is_running (self m)), m).

Definition set_is_running (b : bool) : M unit :=
  fun m => (Ret tt, with_self {| camera_num := camera_num (self m); is_running := b;
                                __scale := __scale (self m);
                                estimator := estimator (self m) |} m).

Definition estimator_live_render : M bool :=
  fun m => (Ret (live_render (estimator (self m))), m).

Definition estimator_device : M string :=
  fun m => (Ret (device (estimator (self m))), m).

(** The getter under [@property def scale] *)
Definition scale : M Q := fun m => (Ret (__scale (self m)), m).

(** The function under [@scale.setter def set_scale] *)
Definition set_scale (new_scale_factor : Q) : M unit :=
  fun m => (Ret tt, with_self {| camera_num := camera_num (self m);
                                is_running := is_running (self m);
                                __scale := new_scale_factor;
                                estimator := estimator (self m) |} m).

(** [height, width, _ = image.shape] *)
Definition unpack_shape (image : option nat) : M (Z * Z) :=
  fun m =>
    match deref m image with
    | None => (Raise (Exn AttributeError "'NoneType' object has no attribute 'shape'"), m)
    | Some a =>
        match shape a with
        | [height; width; _] => (Ret (height, width), m)
        | [] | [_] | [_; _] =>
            (Raise (Exn ValueError "not enough values to unpack (expected 3)"), m)
        | _ => (Raise (Exn ValueError "too many values to unpack (expected 3)"), m)
        end
    end.

(** The static method [__resize(image, factor)] *)
Definition __resize (image : option nat) (factor : Q) : M (option nat) :=
  hw <- unpack_shape image ;;;
  let height := fst hw in
  let width := snd hw in
  new_width <- lift (round_product width factor) ;;;
  new_height <- lift (round_product height factor) ;;;
  let new_dimensions := (new_width, new_height) in
  cv2_resize image new_dimensions INTER_AREA.

(** The method [capture(frame)] *)
Definition capture (frame : option nat) : M unit :=
  (fun m => (Ret tt, emit (ECall_capture frame (deref m frame)) m)) ;;;
  colored_map <- estimator_colormap frame ;;;
  d <- datetime_now ;;;
  let date_today := strftime_date d in
  d' <- datetime_now ;;;
  let timestamp := strftime_clock d' in
  print ("[" +:+ date_today +:+ " | " +:+ timestamp +:+ "] Frame captured!") ;;;
  cv2_imshow ("Depth Scan - " +:+ timestamp) colored_map.

(** The body of the [while] of [run], first half (lines 101 to 108):
    timing, the read, the display frame, the overlay and the window.
    Its value is [frame], which the second half still uses. *)
Definition run_show : M (option nat) :=
  frame_start_time <- perf_counter ;;;
  rf <- camera_read ;;;
  let frame := snd rf in
  lr <- estimator_live_render ;;;
  display_frame <- (if lr then estimator_colormap frame else ret frame) ;;;
  frame_end_time <- perf_counter ;;;
  q <- lift (truediv_1 (float_sub frame_end_time frame_start_time)) ;;;
  fps <- lift (round_float q) ;;;
  lr' <- estimator_live_render ;;;
  let window_label := if lr' then "Depth Capture" else "Standard Camera" in
  cv2_putText display_frame
    {| ov_text := "FPS: " +:+ str_int fps; ov_org := (10, 30);
       ov_fontFace := FONT_HERSHEY_SIMPLEX; ov_fontScale := 7 # 10;
       ov_color := (10, 255, 100); ov_thickness := 2 |} ;;;
  factor <- scale ;;;
  resized <- __resize display_frame factor ;;;
  cv2_imshow window_label resized ;;;
  ret frame.

(** Second half (lines 110 to 116): the key poll and the two tests. *)
Definition run_keys (frame : option nat) : M ctl :=
  key <- cv2_waitKey 10 ;;;
  lr <- estimator_live_render ;;;
  (if (key =? 32) && negb lr then capture frame else ret tt) ;;;
  if (key =? 27) || (key =? ord "q")
  then print "Closing scanner..." ;;; set_is_running false ;;; ret Break
  else ret Next.

(** The body of the [while] of [run], one pass *)
Definition run_body : M ctl :=
  frame <- run_show ;;;
  run_keys frame.

(** The [try] statement of [run]: the loop, its handler, the teardown *)
Definition run_try (fuel : nat) : M unit :=
  try_except_Exception_finally
    (while_is_running fuel run_body)
    (fun e => print ("Error during camera streaming: " +:+ exn_str e))
    (camera_release ;;; cv2_destroyAllWindows).

(** The method [run()] *)
Definition run (fuel : nat) : M unit :=
  set_is_running true ;;;
  dev <- estimator_device ;;;
  print ("[" +:+ upper dev +:+ "] Running depth scan...") ;;;
  run_try fuel ;;;
  print "Scanner closed!".

End Calls.

(** ** Frames: what a statement leaves as it was *)

(** A relation between the state before and the state after that is kept
    by the moves no statement can avoid: allocating and drawing on arrays,
    showing windows, consuming answers of the platform. *)
Class Frame (R : machine -> machine -> Prop) := {
  frame_refl m : R m m;
  frame_trans m1 m2 m3 : R m1 m2 -> R m2 m3 -> R m1 m3;
  frame_heap h m : R m (with_heap h m);
  frame_windows ws m : R m (with_windows ws m);
  frame_cur c m : R m (with_cur c m)
}.

(** The relation lets event [e] be observed. *)
Definition admits (R : machine -> machine -> Prop) (e : event) : Prop :=
  ∀ m, R m (emit e m).

(** Run with estimator [est], statement [c] relates the state before to the
    state after by [R], keeps the estimator, and returns values in [post]. *)
Definition sound (R : machine -> machine -> Prop) (est : DepthEstimator)
    {A} (c : M A) (post : A -> Prop) : Prop :=
  ∀ m, estimator (self m) = est ->
       R m (snd (c m)) ∧ estimator (self (snd (c m))) = est
       ∧ ∀ a, fst (c m) = Ret a -> post a.

(** The observations grow by events that pass [p]; the scale stays. *)
Definition grows (p : event -> bool) (m m' : machine) : Prop :=
  __scale (self m') = __scale (self m) ∧
  ∃ evs, out m' = out m ++ evs ∧ forallb p evs = true.

(** The object [self] is as before. *)
Definition same_self (m m' : machine) : Prop := self m' = self m.


(** ** Vocabulary for the statements about [run] *)

(** The events of a loop pass: no teardown, and no entry into [capture]
    when the estimator renders live. *)
Definition loop_event (lr : bool) (e : event) : bool :=
  match e with
  | ERelease | EDestroyAllWindows => false
  | ECall_capture _ _ => negb lr
  | _ => true
  end.

(** The events of a whole [run()] with a live estimator. *)
Definition not_capture (e : event) : bool :=
  match e with
  | ECall_capture _ _ => false
  | _ => true
  end.

(** The events of reading and transforming a frame. *)
Definition acquisition (e : event) : bool :=
  match e with
  | ERead _ _ | EColormap _ => true
  | _ => false
  end.



(** The titles of the windows shown, in order. *)
Definition shown_titles (evs : list event) : list string :=
  omap (λ e, match e with EImshow title _ => Some title | _ => None end) evs.


(** Lines 96 and 97: the state in which the [try] statement starts. *)
Definition run_entry (m : machine) : machine :=
  snd ((set_is_running true ;;;
        dev <- estimator_device ;;;
        print ("[" +:+ upper dev +:+ "] Running depth scan...")) m).
Arguments run_entry : simpl never.

(** [after_passes w n m mk]: from [m] the loop makes [n] full passes, each
    falling through to the next test of [self.is_running], and is then at
    [mk], about to test again. *)
Inductive after_passes (w : Platform) : nat -> machine -> machine -> Prop :=
| passes_O m : after_passes w O m m
| passes_S n m m1 mk :
    is_running (self m) = true ->
    run_body w m = (Ret Next, m1) ->
    after_passes w n m1 mk ->
    after_passes w (S n) m mk.

(** The FPS overlay of a pass in which [1 / elapsed] rounds to [fps]. *)
Definition fps_overlay (fps : Z) : overlay :=
  {| ov_text := "FPS: " +:+ str_int fps; ov_org := (10, 30);
     ov_fontFace := FONT_HERSHEY_SIMPLEX; ov_fontScale := 7 # 10;
     ov_color := (10, 255, 100); ov_thickness := 2 |}.

(** ** Scenarios *)

Module Scenario.

(** An estimator whose transform false-colours any array and rejects
    [None]. *)
Definition midas (lr : bool) : DepthEstimator :=
  {| colormap := λ f,
       match f with
       | None => inl (Exn TypeError "colormap: expected an image")
       | Some a => inr {| shape := shape a; px := FalseColor (px a) |}
       end;
     live_render := lr;
     device := "cpu" |}.

(** The object after [DepthCamera(camera=0, scale=1.0)]. *)
Definition camera0 (lr : bool) : DepthCamera :=
  {| camera_num := 0; is_running := false; __scale := 1; estimator := midas lr |}.

Definition boot (lr : bool) : machine :=
  {| self := camera0 lr; heap := []; windows := ∅; out := [];
     cur := {| n_perf := 0; n_read := 0; n_resize := 0; n_show := 0; n_key := 0;
              n_now := 0 |} |}.

Definition vga (n : nat) : ndarray := {| shape := [480; 640; 3]; px := Sensor n |}.

(** The wall clock, 250 microseconds further at each reading, from
    12:00:07 on 7 June 2023. *)
Definition wall_clock (n : nat) : datetime :=
  {| year := 2023; mon := June; day := 7; hour := 12; minute := 0;
     second := (7 + n / 4000)%nat; microsecond := (n mod 4000 * 250)%nat |}.

(** A camera that delivers 480 by 640 frames, a clock that advances
    1/60 s per reading, windows that open, and the given key presses
    (no key after them). *)
Definition studio (keys : list Z) : Platform :=
  {| perf_counter_at := λ n, Z.of_nat n # 60;
     camera_read_at := λ n, inr (true, Some (vga n));
     resize_at := λ _, None;
     imshow_at := λ _, None;
     waitKey_at := λ n, inr (nth n keys (-1));
     now_at := wall_clock |}.

(** The same, with a camera that fails to grab: [read()] gives
    [(False, None)]. *)
Definition unplugged : Platform :=
  {| perf_counter_at := λ n, Z.of_nat n # 60;
     camera_read_at := λ _, inr (false, None);
     resize_at := λ _, None;
     imshow_at := λ _, None;
     waitKey_at := λ _, inr (-1);
     now_at := wall_clock |}.


(** The same as [studio], with a clock that does not advance. *)
Definition frozen_clock : Platform :=
  {| perf_counter_at := λ _, 5 # 1;
     camera_read_at := λ n, inr (true, Some (vga n));
     resize_at := λ _, None;
     imshow_at := λ _, None;
     waitKey_at := λ _, inr (-1);
     now_at := wall_clock |}.

(** What is looked at in the state a statement ends in. *)
Definition observe {A} (r : res A * machine)
  : res A * list event * bool * list (string * ndarray) :=
  (fst r, out (snd r), is_running (self (snd r)), map_to_list (windows (snd r))).

End Scenario.


(** ** The class namespace: how [scale] and [set_scale] are exposed *)

Module Attr.

(** Python values as far as attribute access on a [DepthCamera] shows
    them. *)
Inductive pyval :=
| VFloat (q : Q)
| VInt (z : Z)
| VBool (b : bool)
| VStr (s : string)
| VNone
| VObject (cls : string)
| VBoundMethod (name : string)
| VFunction (name : string).

(** [type(v).__name__] *)
Definition type_name (v : pyval) : string :=
  match v with
  | VFloat _ => "float"
  | VInt _ => "int"
  | VBool _ => "bool"
  | VStr _ => "str"
  | VNone => "NoneType"
  | VObject cls => cls
  | VBoundMethod _ => "method"
  | VFunction _ => "function"
  end.

(** A [property] object: the functions behind reading and assigning. *)
Record property := {
  fget : option (gmap string pyval -> exn + pyval);
  fset : option (gmap string pyval -> pyval -> exn + gmap string pyval)
}.

(** [property(f)], which is what the decorator [@property] makes of [f] *)
Definition property_of (f : gmap string pyval -> exn + pyval) : property :=
  {| fget := Some f; fset := None |}.

(** [p.setter(f)]: a copy of [p] with [f] as its [fset] *)
Definition setter (p : property)
    (f : gmap string pyval -> pyval -> exn + gmap string pyval) : property :=
  {| fget := fget p; fset := Some f |}.

(** What a name of the class body is bound to. *)
Inductive member :=
| Function (name : string)
| StaticMethod (name : string)
| Property (p : property).

(** Inside the class body [__scale] is written for this name. *)
Definition mangled_scale : string := "_DepthCamera__scale".

(** The body of [def scale(self)]: [return self.__scale] *)
Definition scale_body (d : gmap string pyval) : exn + pyval :=
  match d !! mangled_scale with
  | Some v => inr v
  | None =>
      inl (Exn AttributeError
             "'DepthCamera' object has no attribute '_DepthCamera__scale'")
  end.

(** The body of [def set_scale(self, new_scale_factor)]:
    [self.__scale = new_scale_factor] *)
Definition set_scale_body (d : gmap string pyval) (new_scale_factor : pyval)
  : exn + gmap string pyval :=
  inr (<[mangled_scale := new_scale_factor]> d).

(** The class body, statement by statement.  A decorated [def] binds its
    own name to what the decorator returns: [@scale.setter] over
    [def set_scale] looks [scale] up, calls its [setter], and binds the
    copy to [set_scale]; the name [scale] keeps the property without a
    setter. *)
Definition class_namespace : gmap string member :=
  let ns : gmap string member := ∅ in
  let ns := <["__init__" := Function "__init__"]> ns in
  let ns := <["__repr__" := Function "__repr__"]> ns in
  let ns := <["scale" := Property (property_of scale_body)]> ns in
  let ns :=
    match ns !! "scale" with
    | Some (Property p) => <["set_scale" := Property (setter p set_scale_body)]> ns
    | _ => ns
    end in
  let ns := <["_DepthCamera__resize" := StaticMethod "__resize"]> ns in
  let ns := <["capture" := Function "capture"]> ns in
  <["run" := Function "run"]> ns.

(** [obj.name]: a property of the class answers first; otherwise the
    instance dictionary, then the other names of the class. *)
Definition py_getattr (d : gmap string pyval) (name : string) : exn + pyval :=
  match class_namespace !! name with
  | Some (Property p) =>
      match fget p with
      | Some g => g d
      | None => inl (Exn AttributeError ("property '" +:+ name +:+ "' has no getter"))
      end
  | other =>
      match d !! name, other with
      | Some v, _ => inr v
      | None, Some (Function f) => inr (VBoundMethod f)
      | None, Some (StaticMethod f) => inr (VFunction f)
      | None, _ =>
          inl (Exn AttributeError
                 ("'DepthCamera' object has no attribute '" +:+ name +:+ "'"))
      end
  end.

(** [obj.name = v]: a property of the class answers; otherwise the value
    goes into the instance dictionary. *)
Definition py_setattr (d : gmap string pyval) (name : string) (v : pyval)
  : exn + gmap string pyval :=
  match class_namespace !! name with
  | Some (Property p) =>
      match fset p with
      | Some s => s d v
      | None =>
          inl (Exn AttributeError
                 ("property '" +:+ name +:+ "' of 'DepthCamera' object has no setter"))
      end
  | _ => inr (<[name := v]> d)
  end.

(** [f(...)]: the name of the method that runs, or the refusal. *)
Definition py_call (f : pyval) : exn + string :=
  match f with
  | VBoundMethod name | VFunction name => inr name
  | v => inl (Exn TypeError ("'" +:+ type_name v +:+ "' object is not callable"))
  end.

(** [obj.name(...)] *)
Definition py_call_attr (d : gmap string pyval) (name : string) : exn + string :=
  match py_getattr d name with
  | inl e => inl e
  | inr f => py_call f
  end.

(** The instance dictionary of the object in state [c]. *)
Definition instance_dict (c : DepthCamera) : gmap string pyval :=
  <["estimator" := VObject "DepthEstimator"]>
    (<[mangled_scale := VFloat (__scale c)]>
       (<["is_running" := VBool (is_running c)]>
          (<["camera" := VObject "VideoCapture"]>
             (<["camera_num" := VInt (camera_num c)]> ∅)))).

End Attr.


(** ** [setup.py]: reading the metadata files *)

Module Setup.

(** A Python [str] read from a file is a sequence of code points. *)
Definition code (s : string) : list N :=
map (λ c, N.of_nat (nat_of_ascii c)) (list_ascii_of_string s).

(** The line feed. *)
Definition LF : N := 10.

(** The code points [str.strip()] removes: those [str.isspace()] accepts. *)
Definition isspace (c : N) : bool :=
((9 <=? c) && (c <=? 13) || (28 <=? c) && (c <=? 32) || (c =? 133) || (c =? 160)
 || (c =? 5760) || (8192 <=? c) && (c <=? 8202) || (c =? 8232) || (c =? 8233)
 || (c =? 8239) || (c =? 8287) || (c =? 12288))%N.

(** [s.lstrip()] *)
Fixpoint lstrip (s : list N) : list N :=
match s with
| c :: s' => if isspace c then lstrip s' else s
| [] => []
end.

(** [s.rstrip()] *)
Definition rstrip (s : list N) : list N := reverse (lstrip (reverse s)).

(** [s.strip()] *)
Definition strip (s : list N) : list N := rstrip (lstrip s).

(** [s.split(sep)] for a separator of one code point: the pieces between
  the separators, at least one piece. *)
Fixpoint split (sep : N) (s : list N) : list (list N) :=
match s with
| [] => [[]]
| c :: s' =>
    if (c =? sep)%N then [] :: split sep s'
    else match split sep s' with
         | piece :: pieces => (c :: piece) :: pieces
         | [] => [[c]]
         end
end.

(** [sep.join(pieces)] for a separator of one code point *)
Fixpoint join (sep : N) (pieces : list (list N)) : list N :=
match pieces with
| [] => []
| [piece] => piece
| piece :: rest => piece ++ sep :: join sep rest
end.

(** [s.startswith(prefix)] *)
Fixpoint startswith (prefix s : list N) : bool :=
match prefix, s with
| [], _ => true
| p :: prefix', c :: s' => (p =? c)%N && startswith prefix' s'
| _ :: _, [] => false
end.

(** [s.startswith((p1, p2, ...))] *)
Definition startswith_any (prefixes : list (list N)) (s : list N) : bool :=
existsb (λ p, startswith p s) prefixes.

(** The tuple of [read_requirements]: a double quote, [#], [-], [git+]. *)
Definition skipped : list (list N) := [[34%N]; code "#"; code "-"; code "git+"].

(** A requirement as one writes it on a line of its own: not empty, no
  line feed, no whitespace at either end, none of the skipped prefixes. *)
Definition plain_requirement (r : list N) : Prop :=
r ≠ [] ∧ (LF ∉ r)
∧ (∀ c, head r = Some c ∨ last r = Some c -> isspace c = false)
∧ startswith_any skipped r = false.

(** [os.path.join(a, b)] on POSIX *)
Definition path_join2 (a b : string) : string :=
if String.prefix "/" b then b
else if String.eqb a "" then b
else if String.eqb (substring (String.length a - 1) 1 a) "/" then a +:+ b
else a +:+ "/" +:+ b.

(** [os.path.join(a, *paths)] *)
Definition path_join (a : string) (paths : list string) : string :=
fold_left path_join2 paths a.

Section Files.

(** The directory of [setup.py], and what opening a file with an encoding
and reading all of it gives: its text, or the exception raised. *)
Context (dirname : string) (open_read : string -> string -> exn + list N).

(** [read]: the positional arguments are the path components, the keyword
argument [encoding] defaults to utf8. *)
Definition read (paths : list string) (encoding : option string) : exn + list N :=
  match open_read (path_join dirname paths) (default "utf8" encoding) with
  | inl e => inl e
  | inr content => inr (strip content)
  end.

(** [read_requirements(path)] *)
Definition read_requirements (path : string) : exn + list (list N) :=
  match read [path] None with
  | inl e => inl e
  | inr content =>
  inr (map strip
         (filter (λ line, startswith_any skipped line = false) (split LF content)))
  end.

(** The arguments of the [setup(...)] call that come from files, in the
order they are evaluated. *)
Record metadata := {
  version : list N;
  long_description : list N;
  install_requires : list (list N);
  extras_require_test : list (list N)
}.

Definition setup_arguments : exn + metadata :=
  match read ["depthscan"; "VERSION"] None with
  | inl e => inl e
  | inr v =>
  match read ["README.md"] None with
  | inl e => inl e
  | inr d =>
      match read_requirements "requirements.txt" with
      | inl e => inl e
      | inr reqs =>
          match read_requirements "requirements-test.txt" with
          | inl e => inl e
          | inr tests =>
              inr {| version := v; long_description := d;
                     install_requires := reqs; extras_require_test := tests |}
          end
      end
  end
  end.

End Files.

(** A file of three lines, the second one a comment that is indented. *)
Definition requirements_txt : list N :=
code "numpy" ++ LF :: code "  # pinned below" ++ LF :: code "torch==2.0".

End Setup.


(** ** More vocabulary for what a run shows *)

(** The title of the window of the loop. *)
Definition window_label (lr : bool) : string :=
  if lr then "Depth Capture" else "Standard Camera".

(** The events of a pass before anything is shown. *)
Definition before_display (e : event) : bool :=
  match e with
  | ERead _ _ | EColormap _ | EPutText _ _ => true
  | _ => false
  end.

Definition is_show (e : event) : bool :=
  match e with EImshow _ _ => true | _ => false end.

Definition is_poll (e : event) : bool :=
  match e with EWaitKey _ _ => true | _ => false end.

Definition is_read (e : event) : bool :=
  match e with ERead _ _ => true | _ => false end.

(** Neither a window shown, nor a key polled, nor an entry into [capture]. *)
Definition blind (e : event) : bool :=
  match e with
  | EImshow _ _ | EWaitKey _ _ | ECall_capture _ _ => false
  | _ => true
  end.

(** The titles a run can give a window. *)
Definition title_ok (lr : bool) (e : event) : bool :=
  match e with
  | EImshow title _ =>
      if lr then String.eqb title "Depth Capture"
      else String.eqb title "Standard Camera" || String.prefix "Depth Scan - " title
  | _ => true
  end.

(** The shape of the array a successful [cv2.resize] gives, from the shape
    of its source and the target size [(width, height)]. *)
Definition resized_shape (sh : list Z) (dsize : Z * Z) : list Z :=
  match sh with
  | [h; w; c] => snd dsize :: fst dsize :: (if c =? 1 then [] else [c])
  | _ => []
  end.

(** [round(1 / (frame_end_time - frame_start_time))], line 105 *)
Definition frame_rate (frame_start_time frame_end_time : Q) : exn + Z :=
  match truediv_1 (float_sub frame_end_time frame_start_time) with
  | inl e => inl e
  | inr q => round_float q
  end.

(** The arrays alive in [m] are as they were in [m']. *)
Definition keeps_older (m m' : machine) : Prop :=
  ∀ i, (i < length (heap m))%nat -> heap m' !! i = heap m !! i.

(** The log line of [capture], from the two clock readings. *)
Definition capture_line (d d' : datetime) : string :=
  "[" +:+ strftime_date d +:+ " | " +:+ strftime_clock d' +:+ "] Frame captured!".

(** ** What a run lets the outside see *)

(** [emits P m m']: the output of [m'] is that of [m] followed by events
    that satisfy [P]. *)
Definition emits (P : event -> Prop) (m m' : machine) : Prop :=
  ∃ evs, out m' = out m ++ evs ∧ Forall P evs.

(** The titles [run] gives a window: the one of the loop, and without live
    rendering the ones of [capture]. *)
Definition run_title (lr : bool) (title : string) : Prop :=
  if lr then title = "Depth Capture"
  else title = "Standard Camera" ∨ ∃ d, title = "Depth Scan - " +:+ strftime_clock d.

(** The lines [run] prints. *)
Definition run_line (est : DepthEstimator) (line : string) : Prop :=
  line = "[" +:+ upper (device est) +:+ "] Running depth scan..."
  ∨ line = "Closing scanner..."
  ∨ line = "Scanner closed!"
  ∨ (∃ e, line = "Error during camera streaming: " +:+ exn_str e)
  ∨ (live_render est = false ∧ ∃ d d', line = capture_line d d').

Definition run_event (est : DepthEstimator) (e : event) : Prop :=
  match e with
  | EPrint line => run_line est line
  | ERead _ _ | EColormap _ | ERelease | EDestroyAllWindows => True
  | EPutText _ o => ∃ fps, o = fps_overlay fps
  | EImshow title _ => run_title (live_render est) title
  | EWaitKey delay _ => delay = 10
  | ECall_capture _ _ => live_render est = false
  end.

(** What [run] leaves alone in [self]: everything but [is_running]. *)
Definition same_configuration (m m' : machine) : Prop :=
  camera_num (self m') = camera_num (self m)
  ∧ __scale (self m') = __scale (self m)
  ∧ estimator (self m') = estimator (self m).

(** The method [__repr__()] *)
Definition __repr__ : M string :=
  fun m =>
    (Ret ("<DepthCamera | camera=" +:+ str_int (camera_num (self m))
          +:+ ", device=" +:+ upper (device (estimator (self m))) +:+ ">"), m).

(** An estimator whose transform fails on every frame. *)
Definition out_of_memory : DepthEstimator :=
  {| colormap := λ _, inl (Exn RuntimeError "CUDA out of memory");
     live_render := false;
     device := "cuda" |}.

(** The object of [Scenario.boot] with another estimator, or another scale. *)
Definition boot_with (est : DepthEstimator) (factor : Q) : machine :=
  with_self {| camera_num := 0; is_running := false; __scale := factor; estimator := est |}
    (Scenario.boot false).


(** The float [0.1], the double nearest to one tenth: the significand
    [0x1999999999999A] times [2^-56]. *)
Definition double_0_1 : Q := 7205759403792794 # 72057594037927936.

(** A colour image of 5 by 5 pixels. *)
Definition tile : ndarray := {| shape := [5; 5; 3]; px := Sensor 0 |}.


(** The array the window of the loop shows for the display frame [src],
    the frame rate [fps] and the target size [dsize]. *)
Definition shown (src : ndarray) (fps : Z) (dsize : Z * Z) : ndarray :=
  {| shape := resized_shape (shape src) dsize;
     px := Resampled dsize INTER_AREA (Annotated (fps_overlay fps) (px src)) |}.

(** * Theorems *)

(** ** The primitives on small inputs *)

Example round_half_even_2 : Py.round (5 # 2) = 2.
Proof. reflexivity. Qed.

Example round_half_even_3 : Py.round (7 # 2) = 4.
Proof. reflexivity. Qed.

Example round_neg : Py.round (-5 # 2) = -2.
Proof. reflexivity. Qed.

Example upper_cuda : Py.upper "cuda:0" = "CUDA:0".
Proof. reflexivity. Qed.

Example ord_q : Py.ord "q" = 113.
Proof. reflexivity. Qed.

Example str_int_30 : Py.str_int 30 = "30".
Proof. reflexivity. Qed.

Example strftime_date_ex :
  strftime_date {| year := 2023; mon := June; day := 7; hour := 9;
                   minute := 5; second := 3; microsecond := 120 |}
  = "07 June 2023".
Proof. reflexivity. Qed.

Example strftime_clock_ex :
  strftime_clock {| year := 2023; mon := June; day := 7; hour := 9;
                    minute := 5; second := 3; microsecond := 120 |}
  = "09:05:03".
Proof. reflexivity. Qed.

Example resize_half :
  Cv2.resize (Some {| shape := [480; 640; 3]; px := Sensor 0 |}) (320, 240) INTER_AREA
  = inr {| shape := [240; 320; 3]; px := Resampled (320, 240) 3 (Sensor 0) |}.
Proof. reflexivity. Qed.

Example resize_empty_target :
  Cv2.resize (Some {| shape := [480; 640; 3]; px := Sensor 0 |}) (1, 0) INTER_AREA
  = inl (Exn cv2_error "resize: inv_scale_x > 0").
Proof. reflexivity. Qed.

(** Float arithmetic on the values where exact arithmetic would give
    another answer. *)
Example nearest_one_tenth : nearest (1 # 10) = Finite double_0_1.
Proof. vm_compute. reflexivity. Qed.

Example round_product_25_tenth : round_product 25 double_0_1 = inr 2.
Proof. vm_compute. reflexivity. Qed.

Example round_product_5_tenth : round_product 5 double_0_1 = inr 0.
Proof. vm_compute. reflexivity. Qed.

Example round_exact_product_25_tenth : Py.round (inject_Z 25 * double_0_1) = 3.
Proof. vm_compute. reflexivity. Qed.

Example frame_rate_near_tie :
  frame_rate 0 (7205759403792793 # 18014398509481984) = inr 2.
Proof. vm_compute. reflexivity. Qed.

Example frame_rate_sixtieth : frame_rate (0 # 60) (1 # 60) = inr 60.
Proof. vm_compute. reflexivity. Qed.

Example float_of_int_rounds : float_of_int (2 ^ 53 + 1) = inr (inject_Z (2 ^ 53)).
Proof. vm_compute. reflexivity. Qed.

Example float_of_int_overflow :
  float_of_int (2 ^ 1024) = inl (Exn OverflowError "int too large to convert to float").
Proof. vm_compute. reflexivity. Qed.

Example round_float_infinity :
  round_float (Infinity false)
  = inl (Exn OverflowError "cannot convert float infinity to integer").
Proof. reflexivity. Qed.

(** ** Rounding and float arithmetic *)

Lemma round_ge_1_pos (x : Q) : 1 <= Py.round x -> 0 < Qnum x.
Proof.
  unfold Py.round. destruct x as [n d]. simpl. intros H.
  destruct (Z_lt_le_dec 0 n) as [| Hn]; [done | exfalso].
  assert (n / Z.pos d <= 0) by (apply Z.div_le_upper_bound; lia).
  destruct (Z.eq_dec (n / Z.pos d) 0) as [Hq | Hq].
  - apply Z.div_small_iff in Hq as [Hq | Hq]; [| lia | lia].
    assert (n = 0) as -> by lia. simpl in H. lia.
  - destruct (2 * (n mod Z.pos d) ?= Z.pos d); [destruct (Z.even _) | |]; lia.
Qed.

Lemma round_nonneg (x : Q) : 0 <= Qnum x -> 0 <= Py.round x.
Proof.
  unfold Py.round. destruct x as [n d]. simpl. intros H.
  assert (0 <= n / Z.pos d) by (apply Z.div_pos; lia).
  destruct (2 * (n mod Z.pos d) ?= Z.pos d); [destruct (Z.even _) | |]; lia.
Qed.

(** A value that is an integer is its own rounding. *)
Lemma round_exact (x : Q) (a : Z) : Qnum x = a * Z.pos (Qden x) -> Py.round x = a.
Proof.
  unfold Py.round. destruct x as [n d]. simpl. intros ->.
  rewrite Z.div_mul, Z.mod_mul by lia. simpl. reflexivity.
Qed.

Lemma shift_num_sign (x : Q) (e : Z) :
  (0 < Qnum (shift x e) <-> 0 < Qnum x) ∧ (0 <= Qnum x -> 0 <= Qnum (shift x e)).
Proof.
  unfold shift. destruct (0 <=? e) eqn:He; simpl; [lia |].
  assert (0 < 2 ^ (- e)) by (apply Z.pow_pos_nonneg; lia). nia.
Qed.

Lemma scaled_num_sign (m e : Z) :
  (0 < Qnum (scaled m e) <-> 0 < m) ∧ (0 <= m -> 0 <= Qnum (scaled m e)).
Proof.
  unfold scaled. destruct (0 <=? e) eqn:He; simpl; [| lia].
  assert (0 < 2 ^ e) by (apply Z.pow_pos_nonneg; lia). nia.
Qed.

(** Rounding to the nearest float keeps the sign. *)
Lemma nearest_pos_inv (x y : Q) : nearest x = Finite y -> 0 < Qnum y -> 0 < Qnum x.
Proof.
  unfold nearest. destruct (Qnum x =? 0); [by intros [= <-] |].
  destruct (_ && _); [done |]. intros [= <-] Hy.
  apply scaled_num_sign in Hy. assert (1 <= Py.round (shift x (Z.max (-1074) (exponent x)))) as Hr by lia.
  apply round_ge_1_pos in Hr. by apply shift_num_sign in Hr.
Qed.

Lemma nearest_nonneg (x y : Q) : nearest x = Finite y -> 0 <= Qnum x -> 0 <= Qnum y.
Proof.
  unfold nearest. destruct (Qnum x =? 0); [by intros [= <-] |].
  destruct (_ && _); [done |]. intros [= <-] Hx.
  apply scaled_num_sign, round_nonneg. by apply shift_num_sign.
Qed.

(** A rounded product that is positive has factors of the same sign. *)
Lemma round_product_pos (n : Z) (y : Q) (k : Z) :
  round_product n y = inr k -> 1 <= k -> 0 <= n -> 0 < n ∧ (0 < y)%Q.
Proof.
  unfold round_product, int_mul_float, float_of_int.
  destruct (nearest (inject_Z n)) as [x | ?] eqn:Hx; [| done].
  destruct (nearest (x * y)) as [p | ?] eqn:Hp; simpl; [| done].
  intros [= <-] Hk Hn. apply round_ge_1_pos in Hk.
  apply (nearest_pos_inv _ _ Hp) in Hk. simpl in Hk.
  pose proof (nearest_nonneg _ _ Hx Hn) as Hx0.
  assert (0 < Qnum x) as Hxp by (destruct (Z.eq_dec (Qnum x) 0) as [E |]; [rewrite E in Hk |]; lia).
  apply (nearest_pos_inv _ _ Hx) in Hxp. simpl in Hxp.
  split; [done |]. unfold Qlt. simpl. nia.
Qed.

(** What the float operations of the loop raise is an [Exception]. *)
Lemma truediv_1_Exception x e :
  truediv_1 x = inl e -> e = Exn ZeroDivisionError "float division by zero".
Proof.
  unfold truediv_1. destruct x as [x |]; [| done].
  destruct (Qeq_bool x 0); [by intros [= <-] | done].
Qed.

Lemma round_float_Exception x e :
  round_float x = inl e -> isinstance_Exception (exn_cls e) = true.
Proof. unfold round_float. destruct x; [done | by intros [= <-]]. Qed.

Lemma round_product_Exception n y e :
  round_product n y = inl e -> isinstance_Exception (exn_cls e) = true.
Proof.
  unfold round_product, int_mul_float, float_of_int.
  destruct (nearest (inject_Z n)); [| by intros [= <-]].
  apply round_float_Exception.
Qed.

Lemma frame_rate_Exception t0 t1 e :
  frame_rate t0 t1 = inl e -> isinstance_Exception (exn_cls e) = true.
Proof.
  unfold frame_rate. destruct (truediv_1 _) as [e' | q] eqn:Hdiv.
  - intros [= <-]. by rewrite (truediv_1_Exception _ _ Hdiv).
  - apply round_float_Exception.
Qed.

(** Equal clock readings: the division raises. *)
Lemma truediv_1_zero_elapsed (t0 t1 : Q) :
  (t1 - t0 == 0)%Q ->
  truediv_1 (float_sub t1 t0) = inl (Exn ZeroDivisionError "float division by zero").
Proof.
  intros H. unfold float_sub, nearest.
  assert (Qnum (t1 - t0) = 0) as -> by (unfold Qeq in H; simpl in *; lia).
  reflexivity.
Qed.

(** An integer below [2^53] is a float, and multiplying it by [1.0]
    gives it back. *)
Lemma nearest_dyadic (x : Q) (h k : Z) :
  0 < h < 2 ^ 53 -> 0 <= k ->
  Qnum x = h * 2 ^ k -> Z.pos (Qden x) = 2 ^ k ->
  nearest x = Finite (scaled (h * 2 ^ (52 - Z.log2 h)) (Z.log2 h - 52)).
Proof.
  intros Hh Hk Hn Hd.
  assert (0 < 2 ^ k) as Hk2 by (apply Z.pow_pos_nonneg; lia).
  pose proof (Z.log2_spec h ltac:(lia)) as [Hlo Hhi].
  pose proof (Z.log2_nonneg h) as HL.
  assert (Z.log2 h < 53) as HL53.
  { apply Z.log2_lt_pow2; lia. }
  assert (0 < h * 2 ^ k) as Hhk by (apply Z.mul_pos_pos; lia).
  unfold nearest. rewrite Hn. replace (h * 2 ^ k =? 0) with false by lia.
  assert (exponent x = Z.log2 h - 52) as ->.
  { unfold exponent. rewrite Hn, Hd, (Z.abs_eq (h * 2 ^ k)) by lia.
    rewrite Z.log2_mul_pow2, Z.log2_pow2 by lia.
    replace (k + Z.log2 h - k - 53) with (Z.log2 h - 53) by lia.
    unfold shift. replace (0 <=? Z.log2 h - 53) with false by lia. simpl.
    rewrite Hn, Hd, Z.abs_eq.
    2: { assert (0 < 2 ^ (- (Z.log2 h - 53))) by (apply Z.pow_pos_nonneg; lia). nia. }
    replace (h * 2 ^ k * 2 ^ (- (Z.log2 h - 53)))
      with (h * 2 ^ (- (Z.log2 h - 53)) * 2 ^ k) by ring.
    rewrite Z.div_mul by lia.
    assert (2 ^ 53 <= h * 2 ^ (- (Z.log2 h - 53))) as Hge.
    { replace (2 ^ 53) with (2 ^ Z.log2 h * 2 ^ (- (Z.log2 h - 53))).
      - apply Z.mul_le_mono_nonneg_r; [apply Z.pow_nonneg; lia | done].
      - rewrite <- Z.pow_add_r by lia. f_equal. lia. }
    replace (2 ^ 53 <=? _) with true by lia. lia. }
  rewrite Z.max_r by lia.
  set (j := 52 - Z.log2 h). replace (Z.log2 h - 52) with (- j) by lia.
  assert (0 <= j) as Hj by lia.
  assert (0 < 2 ^ j) as Hj2 by (apply Z.pow_pos_nonneg; lia).
  assert (Py.round (shift x (- j)) = h * 2 ^ j) as ->.
  { apply round_exact. unfold shift.
    destruct (0 <=? - j) eqn:Hz; simpl.
    - assert (j = 0) as -> by lia. simpl. rewrite Hn.
      rewrite Pos2Z.inj_mul, Hd. simpl. ring.
    - rewrite Hn, Z.opp_involutive, Hd. ring. }
  replace ((0 <=? - j) && (2 ^ 1024 <=? Z.abs (h * 2 ^ j) * 2 ^ (- j))) with false;
    [done |].
  symmetry. apply andb_false_iff.
  destruct (Z.eq_dec j 0) as [-> | Hj0]; [right | left; lia].
  simpl. rewrite Z.abs_eq by lia. apply Z.leb_gt.
  assert (2 ^ 53 < 2 ^ 1024) by (apply Z.pow_lt_mono_r; lia). lia.
Qed.

Lemma round_product_1 (h : Z) : 0 < h < 2 ^ 53 -> round_product h 1 = inr h.
Proof.
  intros Hh. unfold round_product, int_mul_float, float_of_int.
  pose proof (Z.log2_nonneg h) as HL.
  assert (Z.log2 h < 53) as HL53 by (apply Z.log2_lt_pow2; lia).
  set (j := 52 - Z.log2 h). assert (0 <= j) as Hj by lia.
  assert (0 < 2 ^ j) as Hj2 by (apply Z.pow_pos_nonneg; lia).
  rewrite (nearest_dyadic (inject_Z h) h 0); [| done | done | simpl; ring | done].
  fold j. replace (Z.log2 h - 52) with (- j) by lia.
  assert (∃ k, 0 <= k ∧ Qnum (scaled (h * 2 ^ j) (- j) * 1) = h * 2 ^ k
               ∧ Z.pos (Qden (scaled (h * 2 ^ j) (- j) * 1)) = 2 ^ k) as (k & Hk & Hn & Hd).
  { unfold scaled. destruct (0 <=? - j) eqn:Hz; simpl.
    - exists 0. assert (j = 0) as -> by lia. simpl. split; [done |].
      change (- 0) with 0. rewrite !Z.pow_0_r. split; [lia | done].
    - exists j. rewrite Z.opp_involutive, Pos.mul_1_r, Z2Pos.id by done.
      split; [done |]. split; [ring | done]. }
  rewrite (nearest_dyadic _ h k); [| done | done | done | done].
  fold j. replace (Z.log2 h - 52) with (- j) by lia. simpl. f_equal.
  apply round_exact. unfold scaled. destruct (0 <=? - j) eqn:Hz; simpl.
  - assert (j = 0) as -> by lia. simpl. change (- 0) with 0. rewrite !Z.pow_0_r. lia.
  - rewrite Z.opp_involutive, Z2Pos.id by done. reflexivity.
Qed.

Lemma round_product_pos_l (n : Z) (y : Q) (k : Z) :
  round_product n y = inr k -> 1 <= k -> (0 < y)%Q -> 0 < n.
Proof.
  unfold round_product, int_mul_float, float_of_int.
  destruct (nearest (inject_Z n)) as [x | ?] eqn:Hx; [| done].
  destruct (nearest (x * y)) as [p | ?] eqn:Hp; simpl; [| done].
  intros [= <-] Hk Hy. apply round_ge_1_pos in Hk.
  apply (nearest_pos_inv _ _ Hp) in Hk. simpl in Hk.
  unfold Qlt in Hy. simpl in Hy.
  assert (0 < Qnum x) as Hxp by nia.
  by apply (nearest_pos_inv _ _ Hx) in Hxp.
Qed.

(** ** Frame lemmas *)

#[export] Instance grows_frame p : Frame (grows p).
Proof.
  split.
  - intros m. split; [done |]. exists []. by rewrite app_nil_r.
  - intros m1 m2 m3 (Hs1 & evs1 & Ho1 & Hp1) (Hs2 & evs2 & Ho2 & Hp2).
    split; [congruence |]. exists (evs1 ++ evs2).
    rewrite Ho2, Ho1, app_assoc. split; [done |]. by rewrite forallb_app, Hp1, Hp2.
  - intros h m. split; [done |]. exists []. simpl. by rewrite app_nil_r.
  - intros ws m. split; [done |]. exists []. simpl. by rewrite app_nil_r.
  - intros c m. split; [done |]. exists []. simpl. by rewrite app_nil_r.
Qed.

#[export] Instance same_self_frame : Frame same_self.
Proof. split; unfold same_self; simpl; congruence. Qed.

Lemma grows_admits p e : p e = true -> admits (grows p) e.
Proof. intros Hp m. split; [done |]. exists [e]. simpl. by rewrite Hp. Qed.

Lemma same_self_admits e : admits same_self e.
Proof. by intros m. Qed.

Lemma grows_mono (p q : event -> bool) m m' :
  (∀ e, p e = true -> q e = true) -> grows p m m' -> grows q m m'.
Proof.
  intros Hpq (Hs & evs & Ho & Hp). split; [done |]. exists evs. split; [done |].
  rewrite forallb_forall in *. auto.
Qed.

Create HintDb frame discriminated.
#[export] Hint Resolve grows_admits same_self_admits : frame.
#[export] Hint Extern 1 (_ = true) => reflexivity : frame.

Section Sound.

Context (w : Platform) (est : DepthEstimator).
Context (R : machine -> machine -> Prop) `{!Frame R}.

Lemma sound_ret {A} (a : A) (post : A -> Prop) : post a -> sound R est (ret a) post.
Proof. intros Ha m Hm. split; [apply frame_refl | split; [done | simpl; congruence]]. Qed.

Lemma sound_bind {A B} (c : M A) (k : A -> M B) post post' :
  sound R est c post ->
  (∀ a, post a -> sound R est (k a) post') ->
  sound R est (bind c k) post'.
Proof.
  intros Hc Hk m Hm. unfold bind.
  destruct (Hc m Hm) as (HR & He & Hr). destruct (c m) as [[a | e |] m1]; simpl in *.
  - destruct (Hk a (Hr a eq_refl) m1 He) as (HR2 & He2 & Hr2).
    split; [eapply frame_trans; eassumption | done].
  - split; [done | split; [done | congruence]].
  - split; [done | split; [done | congruence]].
Qed.

Lemma sound_raise {A} e (post : A -> Prop) : sound R est (raise e) post.
Proof. intros m Hm. split; [apply frame_refl | split; [done | simpl; congruence]]. Qed.

Lemma sound_lift {A} (r : exn + A) : sound R est (lift r) (λ _, True).
Proof. destruct r; [apply sound_raise | by apply sound_ret]. Qed.

(** A statement that leaves [self] alone and moves by [R]. *)
Lemma sound_step {A} (c : M A) :
  (∀ m, R m (snd (c m))) -> (∀ m, self (snd (c m)) = self m) ->
  sound R est c (λ _, True).
Proof. intros HR Hs m Hm. split; [apply HR | split; [by rewrite Hs | done]]. Qed.

Lemma sound_print line : admits R (EPrint line) -> sound R est (print line) (λ _, True).
Proof. intros Hp. apply sound_step; [apply Hp | done]. Qed.

Lemma sound_perf_counter : sound R est (perf_counter w) (λ _, True).
Proof. apply sound_step; [intros m; apply frame_cur | done]. Qed.

Lemma sound_datetime_now : sound R est (datetime_now w) (λ _, True).
Proof. apply sound_step; [intros m; apply frame_cur | done]. Qed.

Lemma sound_camera_read :
  (∀ ok f, admits R (ERead ok f)) -> sound R est (camera_read w) (λ _, True).
Proof.
  intros Hp. apply sound_step; intros m; unfold camera_read;
    destruct (camera_read_at w _) as [e | [ok [a |]]]; simpl; try done.
  - apply frame_cur.
  - eapply frame_trans; [apply frame_cur |].
    eapply frame_trans; [apply frame_heap | apply Hp].
  - eapply frame_trans; [apply frame_cur | apply Hp].
Qed.

Lemma sound_estimator_colormap frame :
  (∀ a, admits R (EColormap a)) -> sound R est (estimator_colormap frame) (λ _, True).
Proof.
  intros Hp. apply sound_step; intros m; unfold estimator_colormap;
    destruct (colormap _ _); simpl; try done.
  - apply Hp.
  - eapply frame_trans; [apply Hp | apply frame_heap].
Qed.

Lemma sound_cv2_putText img o :
  (∀ r, admits R (EPutText r o)) -> sound R est (cv2_putText img o) (λ _, True).
Proof.
  intros Hp. apply sound_step; intros m; unfold cv2_putText;
    destruct img as [r |]; [destruct (heap m !! r) | | destruct (heap m !! r) |];
    simpl; try done; try apply frame_refl.
  eapply frame_trans; [apply frame_heap | apply Hp].
Qed.

Lemma sound_cv2_imshow winname mat :
  (∀ a, admits R (EImshow winname a)) -> sound R est (cv2_imshow w winname mat) (λ _, True).
Proof.
  intros Hp. apply sound_step; intros m; unfold cv2_imshow;
    destruct (deref m mat); [destruct (imshow_at w _) | | destruct (imshow_at w _) |];
    simpl; try done; try apply frame_cur.
  eapply frame_trans; [apply frame_cur |].
  eapply frame_trans; [apply frame_windows | apply Hp].
Qed.

Lemma sound_cv2_waitKey delay :
  (∀ k, admits R (EWaitKey delay k)) -> sound R est (cv2_waitKey w delay) (λ _, True).
Proof.
  intros Hp. apply sound_step; intros m; unfold cv2_waitKey;
    destruct (waitKey_at w _); simpl; try done; try apply frame_cur.
  eapply frame_trans; [apply frame_cur | apply Hp].
Qed.

Lemma sound_camera_release : admits R ERelease -> sound R est camera_release (λ _, True).
Proof. intros Hp. apply sound_step; [apply Hp | done]. Qed.

Lemma sound_cv2_destroyAllWindows :
  admits R EDestroyAllWindows -> sound R est cv2_destroyAllWindows (λ _, True).
Proof.
  intros Hp. apply sound_step; [| done]. intros m.
  eapply frame_trans; [apply frame_windows | apply Hp].
Qed.

Lemma sound_estimator_live_render :
  sound R est estimator_live_render (λ b, b = live_render est).
Proof.
  intros m Hm. split; [apply frame_refl | split; [done |]].
  simpl. intros a [= <-]. by rewrite Hm.
Qed.

Lemma sound_estimator_device : sound R est estimator_device (λ _, True).
Proof. apply sound_step; [intros m; apply frame_refl | done]. Qed.

Lemma sound_scale : sound R est scale (λ _, True).
Proof. apply sound_step; [intros m; apply frame_refl | done]. Qed.

Lemma sound___resize image factor : sound R est (__resize w image factor) (λ _, True).
Proof.
  apply sound_step; intros m; unfold __resize, bind, unpack_shape, cv2_resize, lift;
    (destruct (deref m image) as [a |] eqn:Hd; simpl; [| done || apply frame_refl]);
    (destruct (shape a) as [| h [| w' [| c [| ? ?]]]]; simpl; try done; try apply frame_refl);
    (destruct (round_product w' factor); simpl; [done || apply frame_refl |]);
    (destruct (round_product h factor); simpl; [done || apply frame_refl |]);
    rewrite Hd; destruct (resize _ _ _); simpl; try done; try apply frame_cur;
    destruct (resize_at w _); simpl; try done; try apply frame_cur.
  eapply frame_trans; [apply frame_cur | apply frame_heap].
Qed.

Lemma sound_capture frame :
  (∀ e, (∀ f a, e ≠ ECall_capture f a) -> e ≠ ERelease -> e ≠ EDestroyAllWindows ->
        admits R e) ->
  (∀ f a, admits R (ECall_capture f a)) ->
  sound R est (capture w frame) (λ _, True).
Proof.
  intros Hev Hcap. unfold capture.
  eapply sound_bind with (post := λ _, True).
  { apply sound_step; [intros m; apply Hcap | done]. }
  intros _ _. eapply sound_bind; [apply sound_estimator_colormap; intros; by apply Hev |].
  intros colored_map _. eapply sound_bind; [apply sound_datetime_now |].
  intros d _. eapply sound_bind; [apply sound_datetime_now |].
  intros d' _. eapply sound_bind; [apply sound_print; by apply Hev |].
  intros _ _. apply sound_cv2_imshow; intros; by apply Hev.
Qed.

(** Lines 101 to 108 under a relation that lets their events through *)
Lemma sound_run_show :
  (∀ e, (∀ f a, e ≠ ECall_capture f a) -> e ≠ ERelease -> e ≠ EDestroyAllWindows ->
        admits R e) ->
  sound R est (run_show w) (λ _, True).
Proof.
  intros Hev. unfold run_show.
  eapply sound_bind; [apply sound_perf_counter |]. intros t0 _.
  eapply sound_bind; [apply sound_camera_read; intros; by apply Hev |]. intros rf _.
  eapply sound_bind; [apply sound_estimator_live_render |]. intros lr _.
  eapply sound_bind with (post := λ _, True).
  { destruct lr; [apply sound_estimator_colormap; intros; by apply Hev | by apply sound_ret]. }
  intros display_frame _.
  eapply sound_bind; [apply sound_perf_counter |]. intros t1 _.
  eapply sound_bind; [apply sound_lift |]. intros q _.
  eapply sound_bind; [apply sound_lift |]. intros fps _.
  eapply sound_bind; [apply sound_estimator_live_render |]. intros lr' _.
  eapply sound_bind; [apply sound_cv2_putText; intros; by apply Hev |]. intros _ _.
  eapply sound_bind; [apply sound_scale |]. intros factor _.
  eapply sound_bind; [apply sound___resize |]. intros resized _.
  eapply sound_bind; [apply sound_cv2_imshow; intros; by apply Hev |]. intros _ _.
  by apply sound_ret.
Qed.

End Sound.

(** ** The loop of [run] *)

Lemma bind_Ret_inv {A B} (c : M A) (k : A -> M B) m b m2 :
  bind c k m = (Ret b, m2) ->
  ∃ a m1, c m = (Ret a, m1) ∧ k a m1 = (Ret b, m2).
Proof.
  unfold bind. destruct (c m) as [[a | e |] m1]; intros H; try discriminate.
  by exists a, m1.
Qed.

Lemma sound_same_self {A} (c : M A) (post : A -> Prop) m :
  sound same_self (estimator (self m)) c post -> self (snd (c m)) = self m.
Proof. intros H. by destruct (H m eq_refl) as (Hs & _). Qed.

Lemma loop_event_admits lr e :
  (∀ f a, e ≠ ECall_capture f a) -> e ≠ ERelease -> e ≠ EDestroyAllWindows ->
  admits (grows (loop_event lr)) e.
Proof.
  intros Hc Hr Hd. apply grows_admits. destruct e; try done. by destruct (Hc frame seen).
Qed.

(** The sequencing rule and a call rule, with the frame found by instance
    search. *)
Ltac seq tac := eapply sound_bind; [typeclasses eauto | tac |].
Ltac call lem := apply lem; try typeclasses eauto.

Section Loop.

Context (w : Platform).

(** The first half of a pass leaves [self] as it was. *)
Lemma run_show_self m : self (snd (run_show w m)) = self m.
Proof.
  apply (sound_same_self _ (λ _, True)), sound_run_show; [apply _ |].
  intros. apply same_self_admits.
Qed.

(** So does [capture]. *)
Lemma capture_self frame m : self (snd (capture w frame m)) = self m.
Proof.
  apply (sound_same_self _ (λ _, True)), sound_capture; [apply _ | |];
    intros; apply same_self_admits.
Qed.

(** A pass leaves [self] as it was unless it breaks: only the quit branch
    writes [is_running], and it breaks. *)
Lemma run_keys_self frame m :
  fst (run_keys w frame m) ≠ Ret Break -> self (snd (run_keys w frame m)) = self m.
Proof.
  unfold run_keys, bind.
  assert (self (snd (cv2_waitKey w 10 m)) = self m) as Ha.
  { unfold cv2_waitKey. by destruct (waitKey_at w _). }
  destruct (cv2_waitKey w 10 m) as [[key | e |] ma]; simpl in *; try done.
  assert (self (snd ((if (key =? 32) && negb (live_render (estimator (self ma)))
                      then capture w frame else ret tt) ma)) = self ma) as Hb.
  { destruct (_ && _); [apply capture_self | done]. }
  destruct ((if (key =? 32) && negb (live_render (estimator (self ma)))
             then capture w frame else ret tt) ma) as [[[] | e |] mb];
    simpl in *; try congruence.
  destruct (_ || _); simpl; [done | congruence].
Qed.

Lemma run_body_self m :
  fst (run_body w m) ≠ Ret Break -> self (snd (run_body w m)) = self m.
Proof.
  unfold run_body, bind. pose proof (run_show_self m) as Ha.
  destruct (run_show w m) as [[frame | e |] ma]; simpl in *; try done.
  intros H. by rewrite run_keys_self.
Qed.

Lemma run_body_Next_self m m1 :
  run_body w m = (Ret Next, m1) -> self m1 = self m.
Proof.
  intros H. replace m1 with (snd (run_body w m)) by (by rewrite H).
  apply run_body_self. by rewrite H.
Qed.

(** The loop left by an exception leaves [self] as it was: [is_running]
    is still what it was when the loop was entered. *)
Lemma while_Raise_self fuel m e m1 :
  while_is_running fuel (run_body w) m = (Raise e, m1) -> self m1 = self m.
Proof.
  revert m. induction fuel as [| fuel IH]; intros m; simpl.
  - by destruct (is_running (self m)).
  - destruct (is_running (self m)); [| done].
    pose proof (run_body_self m) as Hs.
    destruct (run_body w m) as [[[|] | e' |] ma] eqn:Hbody; simpl in *; try done.
    + intros H. rewrite (IH _ H). by apply Hs.
    + intros [= <- <-]. by apply Hs.
Qed.

Lemma after_passes_self n m mk : after_passes w n m mk -> self mk = self m.
Proof.
  induction 1 as [| n m m1 mk Hrun Hbody Hrest IH]; [done |].
  rewrite IH. by apply run_body_Next_self.
Qed.

(** The loop after [n] full passes is the loop started where they end. *)
Lemma while_after_passes n fuel m mk :
  after_passes w n m mk ->
  while_is_running (n + fuel) (run_body w) m = while_is_running fuel (run_body w) mk.
Proof.
  induction 1 as [| n m m1 mk Hrun Hbody Hrest IH]; [done |].
  simpl. by rewrite Hrun, Hbody.
Qed.


(** A pass that raises ends the loop with that exception. *)
Lemma while_Raise fuel m e m1 :
  is_running (self m) = true ->
  run_body w m = (Raise e, m1) ->
  while_is_running (S fuel) (run_body w) m = (Raise e, m1).
Proof. intros Hrun Hbody. simpl. by rewrite Hrun, Hbody. Qed.

(** Natural fall-through: the test fails, no pass is made. *)
Lemma while_fall_through fuel m :
  is_running (self m) = false ->
  while_is_running fuel (run_body w) m = (Ret tt, m).
Proof. intros Hrun. destruct fuel; simpl; by rewrite Hrun. Qed.

(** *** What the loop can be observed to do *)

Lemma sound_run_keys_events est frame :
  sound (grows (loop_event (live_render est))) est (run_keys w frame) (λ _, True).
Proof.
  unfold run_keys.
  seq ltac:(call sound_cv2_waitKey; intros; by apply grows_admits). intros key _.
  seq ltac:(call sound_estimator_live_render). intros lr ->.
  eapply sound_bind with (post := λ _, True); [typeclasses eauto | |].
  { destruct (key =? 32); simpl; [| by call @sound_ret].
    destruct (live_render est); simpl; [by call @sound_ret |].
    call sound_capture; [intros; by apply loop_event_admits
                        | intros f a; by apply grows_admits]. }
  intros _ _. destruct (_ || _); [| by call @sound_ret].
  seq ltac:(call sound_print; by apply grows_admits). intros _ _.
  eapply sound_bind with (post := λ _, True);
    [typeclasses eauto | | intros; by call @sound_ret].
  intros m Hm. split; [| done]. split; [done |]. exists []. simpl. by rewrite app_nil_r.
Qed.

Lemma sound_run_body_events est :
  sound (grows (loop_event (live_render est))) est (run_body w) (λ _, True).
Proof.
  unfold run_body. seq ltac:(call sound_run_show; intros; by apply loop_event_admits).
  intros frame _. apply sound_run_keys_events.
Qed.

Lemma sound_while_events est fuel :
  sound (grows (loop_event (live_render est))) est
        (while_is_running fuel (run_body w)) (λ _, True).
Proof.
  induction fuel as [| fuel IH]; intros m Hm; simpl.
  - destruct (is_running (self m)); simpl; (split; [apply frame_refl | done]).
  - destruct (is_running (self m)); simpl; [| split; [apply frame_refl | done]].
    destruct (sound_run_body_events est m Hm) as (Hg & He & _).
    destruct (run_body w m) as [[[|] | e |] m1]; simpl in *; try done.
    destruct (IH m1 He) as (Hg' & He' & _).
    split; [eapply frame_trans; eassumption | done].
Qed.

End Loop.

(** ** The [try] statement and [run] as a whole *)

Lemma sound_mono (R R' : machine -> machine -> Prop) est {A} (c : M A) post :
  (∀ m m', R m m' -> R' m m') -> sound R est c post -> sound R' est c post.
Proof. intros HRR Hc m Hm. destruct (Hc m Hm) as (HR & He & Hp). auto. Qed.

Lemma sound_try R `{!Frame R} est body handler final :
  sound R est body (λ _, True) ->
  (∀ e, sound R est (handler e) (λ _, True)) ->
  sound R est final (λ _, True) ->
  sound R est (try_except_Exception_finally body handler final) (λ _, True).
Proof.
  intros Hb Hh Hf m Hm. unfold try_except_Exception_finally.
  assert (∀ pending m1, R m m1 -> estimator (self m1) = est ->
    R m (snd (match final m1 with
              | (Ret _, m'') =>
                  match pending with
                  | Some e => (Raise e, m'')
                  | None => (Ret tt, m'')
                  end
              | other => other
              end))
    ∧ estimator (self (snd (match final m1 with
              | (Ret _, m'') =>
                  match pending with
                  | Some e => (Raise e, m'')
                  | None => (Ret tt, m'')
                  end
              | other => other
              end))) = est) as Hafter.
  { intros pending m1 HR1 He1. destruct (Hf m1 He1) as (HR2 & He2 & _).
    destruct (final m1) as [[[] | e |] m2], pending; simpl in *;
      (split; [eapply frame_trans; eassumption | done]). }
  destruct (Hb m Hm) as (HR1 & He1 & _).
  destruct (body m) as [[[] | e |] m1]; simpl in *.
  - destruct (Hafter None m1 HR1 He1). done.
  - destruct (isinstance_Exception (exn_cls e)).
    + destruct (Hh e m1 He1) as (HR2 & He2 & _).
      destruct (handler e m1) as [[[] | e' |] m2]; simpl in *.
      * destruct (Hafter None m2); [eapply frame_trans; eassumption | done |]. done.
      * destruct (Hafter (Some e') m2); [eapply frame_trans; eassumption | done |]. done.
      * split; [eapply frame_trans; eassumption | done].
    + destruct (Hafter (Some e) m1 HR1 He1). done.
  - done.
Qed.





Lemma forallb_not_In (p : event -> bool) evs e :
  forallb p evs = true -> p e = false -> ¬ In e evs.
Proof.
  intros Hall Hpe Hin. rewrite forallb_forall in Hall.
  rewrite (Hall e Hin) in Hpe. discriminate.
Qed.

Section Run.

Context (w : Platform).


Lemma run_unfold fuel m :
  run w fuel m
  = (run_try w fuel ;;; print "Scanner closed!") (run_entry m).
Proof. reflexivity. Qed.

Lemma run_entry_out m :
  out (run_entry m)
  = out m ++ [EPrint ("[" +:+ upper (device (estimator (self m))) +:+ "] Running depth scan...")].
Proof. reflexivity. Qed.

Lemma run_entry_running m : is_running (self (run_entry m)) = true.
Proof. reflexivity. Qed.

Lemma run_entry_estimator m : estimator (self (run_entry m)) = estimator (self m).
Proof. reflexivity. Qed.

(** All of [run()] with a live estimator only makes observations other
    than an entry into [capture]. *)
Lemma sound_run_live est fuel :
  live_render est = true ->
  sound (grows not_capture) est (run w fuel) (λ _, True).
Proof.
  intros Hlr. unfold run.
  eapply sound_bind with (post := λ _, True); [typeclasses eauto | |].
  { intros m Hm. split; [| done]. split; [done |]. exists []. simpl. by rewrite app_nil_r. }
  intros _ _. seq ltac:(call sound_estimator_device). intros dev _.
  seq ltac:(call sound_print; by apply grows_admits). intros _ _.
  seq idtac; [| intros _ _; call sound_print; by apply grows_admits].
  call sound_try.
  - eapply sound_mono; [| apply sound_while_events]. intros m m'.
    apply grows_mono. rewrite Hlr. by intros [].
  - intros e. call sound_print. by apply grows_admits.
  - seq ltac:(call sound_camera_release; by apply grows_admits). intros _ _.
    call sound_cv2_destroyAllWindows. by apply grows_admits.
Qed.

End Run.

(** ** The claims about [run] *)

Section RunClaims.

Context (w : Platform).

(** The [try] statement when the loop raises an [Exception]: the handler
    prints, the teardown runs, nothing goes on. *)
Lemma run_try_caught fuel m e m1 :
  while_is_running fuel (run_body w) m = (Raise e, m1) ->
  isinstance_Exception (exn_cls e) = true ->
  run_try w fuel m
  = (Ret tt,
     emit EDestroyAllWindows
       (with_windows ∅
          (emit ERelease
             (emit (EPrint ("Error during camera streaming: " +:+ exn_str e)) m1)))).
Proof.
  intros Hloop Hcls. unfold run_try, try_except_Exception_finally.
  by rewrite Hloop, Hcls.
Qed.

(** The [try] statement when the loop ends by itself. *)
Lemma run_try_ended fuel m m1 :
  while_is_running fuel (run_body w) m = (Ret tt, m1) ->
  run_try w fuel m
  = (Ret tt, emit EDestroyAllWindows (with_windows ∅ (emit ERelease m1))).
Proof.
  intros Hloop. unfold run_try, try_except_Exception_finally. by rewrite Hloop.
Qed.


(** A frame that is [None], with the estimator not rendering live, never
    gets as far as the key poll: the pass raises before. *)
Lemma run_show_None_raises m ok :
  live_render (estimator (self m)) = false ->
  camera_read_at w (n_read (cur m)) = inr (ok, None) ->
  ∃ e, fst (run_show w m) = Raise e ∧ isinstance_Exception (exn_cls e) = true.
Proof.
  intros Hlr Hread. unfold run_show, bind, perf_counter, camera_read,
    estimator_live_render. simpl. rewrite Hread. simpl. rewrite Hlr. simpl.
  destruct (truediv_1 _) as [e | q] eqn:Hdiv; simpl.
  - exists e. by rewrite (truediv_1_Exception _ _ Hdiv).
  - destruct (round_float q) as [e | fps] eqn:Hround; simpl.
    + exists e. split; [done | by eapply round_float_Exception].
    + eauto.
Qed.

(** A pass whose two clock readings are equal, with a read and a
    transform that do not raise: the division raises. *)
Lemma run_body_zero_elapsed m rf :
  camera_read_at w (n_read (cur m)) = inr rf ->
  (live_render (estimator (self m)) = true ->
   ∃ cm, colormap (estimator (self m)) (snd rf) = inr cm) ->
  (perf_counter_at w (S (n_perf (cur m))) - perf_counter_at w (n_perf (cur m)) == 0)%Q ->
  ∃ m1 evs,
    run_body w m = (Raise (Exn ZeroDivisionError "float division by zero"), m1)
    ∧ out m1 = out m ++ evs ∧ forallb acquisition evs = true
    ∧ self m1 = self m ∧ windows m1 = windows m.
Proof.
  intros Hread Hcm Hzero. apply truediv_1_zero_elapsed in Hzero.
  unfold run_body, run_show, bind, perf_counter, camera_read, estimator_live_render.
  simpl. rewrite Hread.
  destruct rf as [ok [a |]]; simpl in *;
    (destruct (live_render (estimator (self m))) eqn:Hlr; simpl;
     [ destruct Hcm as [cm Hcm]; [done |]; unfold estimator_colormap; simpl;
       rewrite ?lookup_app_r, ?Nat.sub_diag by done; simpl; rewrite Hcm; simpl
     | ]);
    rewrite Hzero; simpl;
    do 2 eexists; (split; [reflexivity |]); simpl;
    (split; [by rewrite <- ?app_assoc |]); done.
Qed.

(** C7: a pass in which the two clock readings are equal (the read and,
    when rendering live, the transform having returned) raises
    [ZeroDivisionError] at the FPS computation, before any overlay, window
    or key poll; nothing in the body handles it; the handler of the [try]
    statement catches it, prints the error line, the teardown runs and the
    [try] statement ends normally. *)
Theorem zero_elapsed_is_caught n m0 m rf fuel :
  after_passes w n m0 m ->
  is_running (self m) = true ->
  camera_read_at w (n_read (cur m)) = inr rf ->
  (live_render (estimator (self m)) = true ->
   ∃ cm, colormap (estimator (self m)) (snd rf) = inr cm) ->
  (perf_counter_at w (S (n_perf (cur m))) - perf_counter_at w (n_perf (cur m)) == 0)%Q ->
  ∃ m1 m2 evs,
    run_body w m = (Raise (Exn ZeroDivisionError "float division by zero"), m1)
    ∧ out m1 = out m ++ evs ∧ forallb acquisition evs = true
    ∧ run_try w (n + S fuel) m0 = (Ret tt, m2)
    ∧ out m2 = out m1 ++ [EPrint "Error during camera streaming: float division by zero";
                         ERelease; EDestroyAllWindows]
    ∧ windows m2 = ∅.
Proof.
  intros Hpasses Hrun Hread Hcm Hzero.
  destruct (run_body_zero_elapsed m rf Hread Hcm Hzero)
    as (m1 & evs & Hbody & Hout & Hacq & _ & _).
  eexists m1, _, evs. split; [done |]. split; [done |]. split; [done |].
  split.
  - eapply run_try_caught;
      [rewrite (while_after_passes w n (S fuel) m0 m Hpasses); by apply while_Raise |].
    reflexivity.
  - simpl. by rewrite <- !app_assoc.
Qed.

(** C5: with the estimator's [live_render] true, [run()] never enters
    [capture], whatever keys are polled and however long it is observed. *)
Theorem live_render_never_captures fuel m :
  live_render (estimator (self m)) = true ->
  ∃ evs, out (snd (run w fuel m)) = out m ++ evs
         ∧ ∀ frame seen, ¬ In (ECall_capture frame seen) evs.
Proof.
  intros Hlr.
  destruct (sound_run_live w _ fuel Hlr m eq_refl) as ((_ & evs & Hout & Hall) & _).
  exists evs. split; [done |]. intros frame seen. by apply (forallb_not_In not_capture).
Qed.


End RunClaims.

(** ** What [capture] is handed by the loop *)

(** Name the events a computed state has added and read off the entries
    into [capture] among them. *)
Ltac events_of_keys :=
  first
    [ exists []; split; [by rewrite app_nil_r | by intros ? ? []]
    | eexists; (split; [rewrite <- ?app_assoc; reflexivity |]);
      simpl; intros ? ? ?; unfold deref in *; simpl in *; intuition (try congruence) ].

Section Alias.

Context (w : Platform).

(** The first half of a pass, estimator not rendering live, when it
    returns: [frame] refers to the array that [read()] delivered, and by
    then the FPS overlay has been drawn on that very array, because
    [display_frame] is the same reference. *)
Lemma run_show_standard_Ret m frame m1 :
  live_render (estimator (self m)) = false ->
  run_show w m = (Ret frame, m1) ->
  ∃ ok a fps,
    camera_read_at w (n_read (cur m)) = inr (ok, Some a)
    ∧ frame = Some (length (heap m))
    ∧ deref m1 frame = Some (draw (fps_overlay fps) a).
Proof.
  intros Hlr. unfold run_show, bind, perf_counter, camera_read, estimator_live_render.
  simpl. destruct (camera_read_at w _) as [e | [ok [a |]]]; simpl; [done | |].
  - rewrite Hlr. simpl. destruct (truediv_1 _) as [e | q]; simpl; [done |].
    destruct (round_float q) as [e | fps]; simpl; [done |].
    rewrite Hlr. unfold cv2_putText. simpl.
    rewrite lookup_app_r, Nat.sub_diag by done. simpl.
    rewrite insert_app_r_alt, Nat.sub_diag by done. simpl.
    unfold __resize, bind, unpack_shape, cv2_resize. simpl.
    rewrite lookup_app_r, Nat.sub_diag by done. simpl.
    destruct (shape a) as [| h [| w' [| c [| ? ?]]]]; simpl; try done.
    destruct (round_product w' _) as [e | new_width]; simpl; [done |].
    destruct (round_product h _) as [e | new_height]; simpl; [done |].
    rewrite lookup_app_r, Nat.sub_diag by done. simpl.
    destruct (resize _ _ _) as [e | b]; simpl; [done |].
    destruct (resize_at w _); simpl; [done |].
    unfold cv2_imshow. simpl.
    rewrite lookup_app_r by (rewrite length_app; simpl; lia).
    replace (length (heap m ++ [_]) - length (heap m ++ [_]))%nat with O by lia.
    simpl. destruct (imshow_at w _); simpl; [done |].
    intros [= <- <-]. exists ok, a, fps. split; [done |]. split; [done |].
    simpl. rewrite lookup_app_l by (rewrite length_app; simpl; lia).
    by rewrite lookup_app_r, Nat.sub_diag.
  - rewrite Hlr. simpl. destruct (truediv_1 _) as [e | q]; simpl; [done |].
    by destruct (round_float q).
Qed.

(** The second half of a pass enters [capture] at most once, and then
    with [frame] and the array it refers to at that moment. *)
Lemma run_keys_capture frame m :
  ∃ evs, out (snd (run_keys w frame m)) = out m ++ evs
         ∧ ∀ f seen, In (ECall_capture f seen) evs -> f = frame ∧ seen = deref m frame.
Proof.
  unfold run_keys, bind, cv2_waitKey, estimator_live_render, capture, bind,
    estimator_colormap, datetime_now, print, cv2_imshow, set_is_running, ret.
  simpl. destruct (waitKey_at w _) as [e | key]; simpl.
  { exists []. by rewrite app_nil_r. }
  destruct (key =? 32), (live_render (estimator (self m))); simpl;
    try (destruct (_ || _); simpl; by events_of_keys).
  destruct (colormap _ _) as [e | cm]; simpl; [by events_of_keys |].
  rewrite lookup_app_r, Nat.sub_diag by done. simpl.
  destruct (imshow_at w _); simpl; try (destruct (_ || _); simpl); by events_of_keys.
Qed.

End Alias.

(** ** Where the loop departs from what is said of it *)

Section Findings.

Context (w : Platform).

(** With the estimator not rendering live, every entry into [capture]
    made by a pass is with the array [read()] delivered in that pass
    after the FPS overlay was drawn on it. *)
Lemma capture_sees_overlay m :
  live_render (estimator (self m)) = false ->
  ∃ evs, out (snd (run_body w m)) = out m ++ evs
         ∧ ∀ f seen, In (ECall_capture f seen) evs ->
             ∃ ok a fps,
               camera_read_at w (n_read (cur m)) = inr (ok, Some a)
               ∧ seen = Some (draw (fps_overlay fps) a).
Proof.
  intros Hlr. unfold run_body, bind.
  assert (sound (grows not_capture) (estimator (self m)) (run_show w) (λ _, True)) as Hs.
  { call sound_run_show. intros e He _ _. apply grows_admits. destruct e; try done.
    by destruct (He frame seen). }
  destruct (Hs m eq_refl) as ((_ & evs1 & Hout1 & Hall1) & _ & _).
  destruct (run_show w m) as [[frame | e |] m1] eqn:Hshow; simpl in *.
  - destruct (run_keys_capture w frame m1) as (evs2 & Hout2 & Hcap).
    exists (evs1 ++ evs2). rewrite Hout2, Hout1, app_assoc. split; [done |].
    intros f seen [Hin | Hin]%in_app_or.
    + by destruct (forallb_not_In not_capture evs1 (ECall_capture f seen) Hall1 eq_refl Hin).
    + destruct (Hcap f seen Hin) as [-> ->].
      destruct (run_show_standard_Ret w m frame m1 Hlr Hshow) as (ok & a & fps & Hr & _ & Hd).
      by exists ok, a, fps.
  - exists evs1. split; [done |]. intros f seen Hin.
    by destruct (forallb_not_In not_capture evs1 (ECall_capture f seen) Hall1 eq_refl Hin).
  - exists evs1. split; [done |]. intros f seen Hin.
    by destruct (forallb_not_In not_capture evs1 (ECall_capture f seen) Hall1 eq_refl Hin).
Qed.

(** When the loop is left by an [Exception], [run()] returns with
    [is_running] still [True]: the handler only prints. *)
Lemma run_caught_leaves_running fuel m e m1 :
  while_is_running fuel (run_body w) (run_entry m) = (Raise e, m1) ->
  isinstance_Exception (exn_cls e) = true ->
  fst (run w fuel m) = Ret tt ∧ is_running (self (snd (run w fuel m))) = true.
Proof.
  intros Hloop Hcls. rewrite run_unfold. unfold bind.
  rewrite (run_try_caught w fuel _ e m1 Hloop Hcls). simpl.
  by rewrite (while_Raise_self w _ _ _ _ Hloop).
Qed.

End Findings.

Import Scenario.

(** C1: the spacebar with the estimator not rendering live.  The frame read
    is [vga 0]; the pass goes on to the next test with [is_running] true,
    as claimed; but what [capture] and then the transform get is that array
    with the overlay "FPS: 60" on it, not the array as read. *)
Theorem capture_gets_annotated_frame :
  camera_read_at (studio [32]) 0 = inr (true, Some (vga 0))
  ∧ fst (run_body (studio [32]) (run_entry (boot false))) = Ret Next
  ∧ is_running (self (snd (run_body (studio [32]) (run_entry (boot false))))) = true
  ∧ In (ECall_capture (Some O) (Some (draw (fps_overlay 60) (vga 0))))
       (out (snd (run_body (studio [32]) (run_entry (boot false)))))
  ∧ In (EColormap (Some (draw (fps_overlay 60) (vga 0))))
       (out (snd (run_body (studio [32]) (run_entry (boot false)))))
  ∧ unannotated (px (draw (fps_overlay 60) (vga 0))) = false
  ∧ draw (fps_overlay 60) (vga 0) ≠ vga 0.
Proof.
  split; [reflexivity |]. split; [by vm_compute |]. split; [by vm_compute |].
  split; [vm_compute; tauto |]. split; [vm_compute; tauto |]. done.
Qed.

(** C3: a camera that does not deliver.  [read()] gives [(False, None)];
    [cv2.putText] takes [None] and returns; in [__resize] the unpacking of
    [image.shape] raises [AttributeError] on [None]; the handler prints,
    the teardown runs, [run()] returns, and [is_running] is still
    [True]. *)
Theorem is_running_after_read_failure :
  observe (run unplugged 1 (boot false))
  = (Ret tt,
     [EPrint "[CPU] Running depth scan...";
      ERead false None;
      EPrint "Error during camera streaming: 'NoneType' object has no attribute 'shape'";
      ERelease; EDestroyAllWindows;
      EPrint "Scanner closed!"],
     true, []).
Proof. by vm_compute. Qed.


(** ** Stepping through a sequence of statements *)

Lemma bind_run {A B} (c : M A) (k : A -> M B) m :
  bind c k m
  = match c m with
    | (Ret a, m') => k a m'
    | (Raise e, m') => (Raise e, m')
    | (Timeout, m') => (Timeout, m')
    end.
Proof. reflexivity. Qed.

(** ** The two properties *)

Module AttrFacts.

Import Attr.

Lemma class_namespace_eq :
  class_namespace
  = <["run" := Function "run"]>
      (<["capture" := Function "capture"]>
         (<["_DepthCamera__resize" := StaticMethod "__resize"]>
            (<["set_scale" := Property (setter (property_of scale_body) set_scale_body)]>
               (<["scale" := Property (property_of scale_body)]>
                  (<["__repr__" := Function "__repr__"]>
                     (<["__init__" := Function "__init__"]> ∅)))))).
Proof. reflexivity. Qed.

(** The names of the class that are properties. *)
Lemma class_property name p :
  class_namespace !! name = Some (Property p) ->
  (name = "scale" ∧ p = property_of scale_body)
  ∨ (name = "set_scale" ∧ p = setter (property_of scale_body) set_scale_body).
Proof.
  rewrite class_namespace_eq.
  repeat (rewrite lookup_insert; case_decide; [intros [= <-] |]); subst; auto;
    discriminate.
Qed.

Lemma instance_dict_set_scale c q :
  <[mangled_scale := VFloat q]> (instance_dict c)
  = instance_dict {| camera_num := camera_num c; is_running := is_running c;
                     __scale := q; estimator := estimator c |}.
Proof.
  unfold instance_dict. simpl.
  rewrite (insert_insert_ne _ mangled_scale "estimator") by done.
  by rewrite insert_insert_eq.
Qed.

(** C10: [scale] and [set_scale] are two properties.  Reading [scale]
    gives the current factor; assigning to [scale] raises
    [AttributeError], it has no setter; assigning to [set_scale] stores the
    value, and is what the function [set_scale] of the loop model does;
    reading [set_scale] gives the current factor, a float, so calling
    [set_scale(v)] raises [TypeError]; and among the names the class
    binds, an assignment changes the stored factor only through
    [set_scale]. *)
Theorem scale_is_two_properties (m : machine) (v : pyval) (q : Q) :
  py_getattr (instance_dict (self m)) "scale" = inr (VFloat (__scale (self m)))
  ∧ (∀ x, fst (scale m) = Ret x ->
          py_getattr (instance_dict (self m)) "scale" = inr (VFloat x))
  ∧ py_setattr (instance_dict (self m)) "scale" v
    = inl (Exn AttributeError "property 'scale' of 'DepthCamera' object has no setter")
  ∧ py_setattr (instance_dict (self m)) "set_scale" v
    = inr (<[mangled_scale := v]> (instance_dict (self m)))
  ∧ py_setattr (instance_dict (self m)) "set_scale" (VFloat q)
    = inr (instance_dict (self (snd (set_scale q m))))
  ∧ py_getattr (instance_dict (self m)) "set_scale" = inr (VFloat (__scale (self m)))
  ∧ py_call_attr (instance_dict (self m)) "set_scale"
    = inl (Exn TypeError "'float' object is not callable")
  ∧ (∀ name d',
       is_Some (class_namespace !! name) ->
       py_setattr (instance_dict (self m)) name v = inr d' ->
       d' !! mangled_scale ≠ instance_dict (self m) !! mangled_scale ->
       name = "set_scale").
Proof.
  assert (class_namespace !! "scale" = Some (Property (property_of scale_body)))
    as Hscale by reflexivity.
  assert (class_namespace !! "set_scale"
          = Some (Property (setter (property_of scale_body) set_scale_body)))
    as Hset by reflexivity.
  assert (instance_dict (self m) !! mangled_scale = Some (VFloat (__scale (self m))))
    as Hslot by reflexivity.
  assert (py_getattr (instance_dict (self m)) "scale" = inr (VFloat (__scale (self m))))
    as Hget.
  { unfold py_getattr. rewrite Hscale. simpl. unfold scale_body. by rewrite Hslot. }
  split; [done |].
  split; [by intros x [= <-] |].
  split; [unfold py_setattr; by rewrite Hscale |].
  split; [unfold py_setattr; by rewrite Hset |].
  split; [unfold py_setattr; rewrite Hset; simpl; unfold set_scale_body;
          by rewrite instance_dict_set_scale |].
  assert (py_getattr (instance_dict (self m)) "set_scale"
          = inr (VFloat (__scale (self m)))) as Hget'.
  { unfold py_getattr. rewrite Hset. simpl. unfold scale_body. by rewrite Hslot. }
  split; [done |].
  split; [unfold py_call_attr; by rewrite Hget' |].
  intros name d' [mem Hmem] Hassign Hchanged. unfold py_setattr in Hassign.
  rewrite Hmem in Hassign. destruct mem as [f | f | p].
  - injection Hassign as <-. destruct (decide (name = mangled_scale)) as [-> |].
    + by vm_compute in Hmem.
    + by rewrite lookup_insert_ne in Hchanged.
  - injection Hassign as <-. destruct (decide (name = mangled_scale)) as [-> |].
    + by vm_compute in Hmem.
    + by rewrite lookup_insert_ne in Hchanged.
  - by destruct (class_property name p Hmem) as [[-> ->] | [-> _]].
Qed.

End AttrFacts.

(** ** [capture] *)

Lemma digit_char_inj (a b : nat) :
  (a < 10)%nat -> (b < 10)%nat -> digit_char a = digit_char b -> a = b.
Proof.
  intros Ha Hb H. apply (f_equal nat_of_ascii) in H. unfold digit_char in H.
  rewrite !nat_ascii_embedding in H by lia. lia.
Qed.

Lemma pad2_digits (n : nat) :
  (n < 100)%nat ->
  pad2 n = String (digit_char (n / 10)) (String (digit_char (n mod 10)) EmptyString).
Proof.
  intros Hn.
  assert (forallb (λ k, String.eqb (pad2 k)
                     (String (digit_char (k / 10))
                        (String (digit_char (k mod 10)) EmptyString)))
            (seq 0 100) = true) as Hall by (vm_compute; reflexivity).
  rewrite forallb_forall in Hall. apply String.eqb_eq, Hall, in_seq. lia.
Qed.

Lemma pad2_inj (a b : nat) :
  (a < 100)%nat -> (b < 100)%nat -> pad2 a = pad2 b -> a = b.
Proof.
  intros Ha Hb. rewrite !pad2_digits by done. intros H. injection H as Hhi Hlo.
  assert (a / 10 < 10)%nat by (apply Nat.Div0.div_lt_upper_bound; lia).
  assert (b / 10 < 10)%nat by (apply Nat.Div0.div_lt_upper_bound; lia).
  pose proof (Nat.mod_upper_bound a 10 ltac:(lia)).
  pose proof (Nat.mod_upper_bound b 10 ltac:(lia)).
  apply digit_char_inj in Hhi, Hlo; try done.
  change (a / 10 = b / 10)%nat in Hhi. change (a mod 10 = b mod 10)%nat in Hlo.
  pose proof (Nat.div_mod_eq a 10). pose proof (Nat.div_mod_eq b 10). lia.
Qed.

(** Two clock strings are the same exactly when hour, minute and second
    are: the date, and what is below the second, do not enter. *)
Lemma strftime_clock_eq (d1 d2 : datetime) :
  valid_clock d1 -> valid_clock d2 ->
  strftime_clock d1 = strftime_clock d2
  ↔ hour d1 = hour d2 ∧ minute d1 = minute d2 ∧ second d1 = second d2.
Proof.
  intros (Hh1 & Hm1 & Hs1) (Hh2 & Hm2 & Hs2). split.
  - unfold strftime_clock.
    rewrite (pad2_digits (hour d1)), (pad2_digits (minute d1)), (pad2_digits (second d1)),
      (pad2_digits (hour d2)), (pad2_digits (minute d2)), (pad2_digits (second d2)) by lia.
    simpl. intros H. injection H as H1 H2 H3 H4 H5 H6.
    repeat split; apply pad2_inj; try lia; rewrite !pad2_digits by lia;
      (f_equal; [| f_equal]; assumption).
  - unfold strftime_clock. by intros (-> & -> & ->).
Qed.

Section Capture.

Context (w : Platform).

(** C9, amended: [capture(frame)] hands the array [frame] refers to the
    estimator's transform, prints a line with the date and the time of
    day, and shows the result in the window titled "Depth Scan - " and
    the time of day to the second: a window of that title is reused if
    there is one, else one is opened.  [self], and with it [is_running],
    is as before.  Two invocations have the same title exactly when their
    clock readings agree in hour, minute and second. *)
Theorem capture_effects (frame : option nat) (m : machine) (cm : ndarray) :
  colormap (estimator (self m)) (deref m frame) = inr cm ->
  imshow_at w (n_show (cur m)) = None ->
  let d := now_at w (n_now (cur m)) in
  let d' := now_at w (S (n_now (cur m))) in
  let title := "Depth Scan - " +:+ strftime_clock d' in
  ∃ m',
    capture w frame m = (Ret tt, m')
    ∧ out m' = out m ++
        [ECall_capture frame (deref m frame);
         EColormap (deref m frame);
         EPrint ("[" +:+ strftime_date d +:+ " | " +:+ strftime_clock d'
                 +:+ "] Frame captured!");
         EImshow title cm]
    ∧ windows m' = <[title := cm]> (windows m)
    ∧ self m' = self m
    ∧ ∀ d1 d2, valid_clock d1 -> valid_clock d2 ->
        ("Depth Scan - " +:+ strftime_clock d1 = "Depth Scan - " +:+ strftime_clock d2
         ↔ hour d1 = hour d2 ∧ minute d1 = minute d2 ∧ second d1 = second d2).
Proof.
  intros Hcm Hshow d d' title.
  unfold capture, bind, estimator_colormap, datetime_now, print, cv2_imshow. simpl.
  assert (deref (emit (ECall_capture frame (deref m frame)) m) frame = deref m frame)
    as -> by (by destruct frame).
  rewrite Hcm. simpl. rewrite lookup_app_r, Nat.sub_diag by done. simpl.
  rewrite Hshow. eexists. split; [reflexivity |]. simpl.
  split; [by rewrite <- !app_assoc |]. split; [done |]. split; [done |].
  intros d1 d2 Hd1 Hd2. rewrite <- (strftime_clock_eq d1 d2 Hd1 Hd2).
  simpl. split; [intros H; by injection H | by intros ->].
Qed.

End Capture.

(** C9 as stated fails: the spacebar twice within one second.  The clock
    is read at 12:00:07.000250 and 12:00:07.000750 for the two titles; they are the
    same title, and after both invocations one capture window is open, not
    two: the second invocation drew over the first. *)
Lemma capture_twice_one_title :
  let m0 := with_heap [Scenario.vga 0] (Scenario.boot false) in
  let m1 := snd (capture (Scenario.studio []) (Some O) m0) in
  let m2 := snd (capture (Scenario.studio []) (Some O) m1) in
  Scenario.wall_clock 1 ≠ Scenario.wall_clock 3
  ∧ fst (capture (Scenario.studio []) (Some O) m0) = Ret tt
  ∧ fst (capture (Scenario.studio []) (Some O) m1) = Ret tt
  ∧ shown_titles (out m2) = ["Depth Scan - 12:00:07"; "Depth Scan - 12:00:07"]
  ∧ size (windows m1) = 1%nat
  ∧ size (windows m2) = 1%nat.
Proof.
  split; [discriminate |]. split; [by vm_compute |]. split; [by vm_compute |].
  split; [by vm_compute |]. split; by vm_compute.
Qed.

(** ** The theorems at work on the scenarios *)

Import Scenario.

Lemma zero_elapsed_is_caught_witness :
  ∃ m2, run_try frozen_clock (0 + 1) (run_entry (boot false)) = (Ret tt, m2)
        ∧ windows m2 = ∅.
Proof.
  destruct (zero_elapsed_is_caught frozen_clock O
              (run_entry (boot false)) (run_entry (boot false))
              (true, Some (vga 0)) O)
    as (m1 & m2 & evs & _ & _ & _ & Htry & _ & Hwin).
  - apply passes_O.
  - reflexivity.
  - reflexivity.
  - intros H. vm_compute in H. discriminate.
  - reflexivity.
  - exists m2. split; [exact Htry | exact Hwin].
Defined.

Lemma live_render_never_captures_witness :
  live_render (estimator (self (boot true))) = true
  ∧ ∃ evs, out (snd (run (studio [32; 32; 27]) 5 (boot true))) = out (boot true) ++ evs
           ∧ ∀ frame seen, ¬ In (ECall_capture frame seen) evs.
Proof.
  split; [reflexivity |].
  apply (live_render_never_captures (studio [32; 32; 27]) 5 (boot true)). reflexivity.
Defined.


Lemma capture_effects_witness :
  ∃ m', capture (studio []) (Some O) (with_heap [vga 0] (boot false)) = (Ret tt, m')
        ∧ windows m'
          = <["Depth Scan - 12:00:07" := {| shape := [480; 640; 3];
                                           px := FalseColor (Sensor 0) |}]> ∅
        ∧ self m' = self (boot false).
Proof.
  destruct (capture_effects (studio []) (Some O) (with_heap [vga 0] (boot false))
              {| shape := [480; 640; 3]; px := FalseColor (Sensor 0) |})
    as (m' & Hrun & _ & Hwin & Hself & _).
  - reflexivity.
  - reflexivity.
  - exists m'. split; [exact Hrun | split; [exact Hwin | exact Hself]].
Defined.

(** ** [setup.py]: what the readers return *)

Module SetupFacts.

Import Setup.

(** What [lstrip] removes is whitespace, and what it leaves does not start
  with whitespace. *)
Lemma lstrip_split (s : list N) :
∃ ws, s = ws ++ lstrip s ∧ forallb isspace ws = true
      ∧ ∀ c, head (lstrip s) = Some c -> isspace c = false.
Proof.
induction s as [| c s (ws & Hs & Hws & Hhead)]; simpl.
- by exists [].
- destruct (isspace c) eqn:Hc.
  + exists (c :: ws). simpl. rewrite Hc, Hws. split; [by f_equal |]. done.
  + exists []. simpl. split; [done |]. split; [done |]. by intros ? [= <-].
Qed.

Lemma lstrip_blank (s : list N) : forallb isspace s = true -> lstrip s = [].
Proof.
induction s as [| c s IH]; [done |]. simpl. intros [Hc Hs]%andb_prop.
rewrite Hc. auto.
Qed.

Lemma lstrip_id (s : list N) :
(∀ c, head s = Some c -> isspace c = false) -> lstrip s = s.
Proof. destruct s as [| c s]; [done |]. simpl. intros H. by rewrite (H c). Qed.

Lemma rstrip_id (s : list N) :
(∀ c, last s = Some c -> isspace c = false) -> rstrip s = s.
Proof.
intros H. unfold rstrip. rewrite lstrip_id; [apply reverse_involutive |].
intros c Hc. apply H. by rewrite <- head_reverse.
Qed.

(** A stripped text neither starts nor ends with whitespace. *)
Lemma strip_trimmed (s : list N) c :
head (strip s) = Some c ∨ last (strip s) = Some c -> isspace c = false.
Proof.
unfold strip, rstrip.
destruct (lstrip_split s) as (ws1 & _ & _ & Hhead).
destruct (lstrip_split (reverse (lstrip s))) as (ws2 & Hrev & _ & Hhead2).
intros [H | H].
- rewrite head_reverse in H.
  apply Hhead. rewrite <- last_reverse, Hrev, last_app. by rewrite H.
- rewrite last_reverse in H. auto.
Qed.

Lemma strip_blank (s : list N) : forallb isspace s = true -> strip s = [].
Proof. intros H. unfold strip. by rewrite (lstrip_blank s H). Qed.

Lemma strip_id (s : list N) :
(∀ c, head s = Some c -> isspace c = false) ->
(∀ c, last s = Some c -> isspace c = false) ->
strip s = s.
Proof. intros Hh Hl. unfold strip. rewrite (lstrip_id s Hh). by apply rstrip_id. Qed.

Lemma lstrip_subseteq (s : list N) : lstrip s ⊆ s.
Proof.
destruct (lstrip_split s) as (ws & Hs & _). rewrite Hs at 2. set_solver.
Qed.

Lemma strip_subseteq (s : list N) : strip s ⊆ s.
Proof.
unfold strip, rstrip. intros c Hc. apply lstrip_subseteq.
apply elem_of_reverse, lstrip_subseteq. by apply elem_of_reverse.
Qed.

Lemma split_nonempty sep s : split sep s ≠ [].
Proof.
destruct s as [| c s]; simpl; [done |].
destruct (c =? sep)%N; [done |]. by destruct (split sep s).
Qed.

(** No piece of a split contains the separator. *)
Lemma split_pieces sep s : Forall (λ piece, sep ∉ piece) (split sep s).
Proof.
induction s as [| c s IH]; simpl.
- repeat constructor. set_solver.
- destruct (N.eqb_spec c sep) as [-> | Hne].
  + constructor; [apply not_elem_of_nil | done].
  + destruct (split sep s) as [| piece pieces].
    * repeat constructor. by intros [-> | []%not_elem_of_nil]%elem_of_cons.
    * apply Forall_cons in IH as [Hp Hps]. constructor; [| done].
      by intros [-> | ?]%elem_of_cons.
Qed.

(** Joining the pieces of a split gives the text back. *)
Lemma join_split sep s : join sep (split sep s) = s.
Proof.
induction s as [| c s IH]; [done |]. simpl.
destruct (N.eqb_spec c sep) as [-> | Hne].
- pose proof (split_nonempty sep s). destruct (split sep s); [done |].
  simpl in *. by rewrite IH.
- pose proof (split_nonempty sep s). destruct (split sep s) as [| p [| p' ps]]; [done | |].
  + simpl in *. by rewrite IH.
  + simpl in *. by rewrite <- IH.
Qed.

Lemma split_app_sep sep piece rest :
sep ∉ piece -> split sep (piece ++ sep :: rest) = piece :: split sep rest.
Proof.
induction piece as [| c piece IH]; intros Hin; simpl.
- by rewrite N.eqb_refl.
- destruct (N.eqb_spec c sep) as [-> | Hne]; [set_solver |].
  rewrite IH by set_solver. done.
Qed.

Lemma split_no_sep sep piece : sep ∉ piece -> split sep piece = [piece].
Proof.
induction piece as [| c piece IH]; intros Hin; simpl; [done |].
destruct (N.eqb_spec c sep) as [-> | Hne]; [set_solver |].
rewrite IH by set_solver. done.
Qed.

(** Splitting a join of separator-free pieces gives the pieces back. *)
Lemma split_join sep pieces :
pieces ≠ [] -> Forall (λ piece, sep ∉ piece) pieces ->
split sep (join sep pieces) = pieces.
Proof.
induction pieces as [| piece [| piece' rest] IH]; intros Hne Hall; [done | |].
- simpl. apply split_no_sep. by inversion Hall.
- inversion Hall; subst. change (join sep (piece :: piece' :: rest))
    with (piece ++ sep :: join sep (piece' :: rest)).
  rewrite split_app_sep by done. f_equal. by apply IH.
Qed.

Lemma skipped_not_space c rest :
isspace c = true -> startswith_any skipped (c :: rest) = false.
Proof.
intros Hc. unfold startswith_any.
change skipped with [[34]; [35]; [45]; [103; 105; 116; 43]]%N.
cbn [existsb startswith].
destruct (N.eqb_spec 34 c) as [<- | _]; [by vm_compute in Hc |].
destruct (N.eqb_spec 35 c) as [<- | _]; [by vm_compute in Hc |].
destruct (N.eqb_spec 45 c) as [<- | _]; [by vm_compute in Hc |].
by destruct (N.eqb_spec 103 c) as [<- | _]; [vm_compute in Hc |].
Qed.

Lemma head_join sep piece rest :
piece ≠ [] -> head (join sep (piece :: rest)) = head piece.
Proof. destruct piece, rest; done. Qed.

Lemma last_join sep pieces piece :
piece ≠ [] -> last (join sep (pieces ++ [piece])) = last piece.
Proof.
intros Hne. induction pieces as [| p [| p' ps] IH]; [done | |].
- simpl. rewrite last_app, last_cons. by destruct (last piece) eqn:Hl; [| apply last_None in Hl].
- change (join sep ((p :: p' :: ps) ++ [piece]))
    with (p ++ sep :: join sep ((p' :: ps) ++ [piece])).
  rewrite last_app, last_cons, IH.
  by destruct (last piece) eqn:Hl; [| apply last_None in Hl].
Qed.

(** What [rstrip] removes is whitespace. *)
Lemma rstrip_split (s : list N) :
∃ ws, s = rstrip s ++ ws ∧ forallb isspace ws = true.
Proof.
destruct (lstrip_split (reverse s)) as (ws & Hs & Hws & _).
exists (reverse ws). split.
- unfold rstrip. rewrite <- reverse_app, <- Hs. by rewrite reverse_involutive.
- apply forallb_forall. intros c Hc.
  apply (proj1 (forallb_forall _ _) Hws).
  apply list_elem_of_In, elem_of_reverse. by apply list_elem_of_In.
Qed.

(** The first piece of a split starts as the text does. *)
Lemma head_split sep s first rest c :
split sep s = first :: rest -> head first = Some c -> head s = Some c.
Proof.
destruct s as [| c' s']; simpl; [by intros [= <- <-] |].
destruct (c' =? sep)%N; [by intros [= <- <-] |].
destruct (split sep s') as [| piece pieces]; by intros [= <- <-].
Qed.

Section Files.

Context (dirname : string) (open_read : string -> string -> exn + list N).

(** X1: [read] raises exactly what opening and decoding the file raise;
otherwise it returns the content of the file without the whitespace
at its two ends: the content is whitespace, then the text returned,
then whitespace, and the text neither starts nor ends with
whitespace. *)
Theorem read_is_stripped paths encoding :
  match open_read (path_join dirname paths) (default "utf8" encoding) with
  | inl e => read dirname open_read paths encoding = inl e
  | inr content =>
  ∃ leading text trailing,
    read dirname open_read paths encoding = inr text
    ∧ content = leading ++ text ++ trailing
    ∧ forallb isspace leading = true
    ∧ forallb isspace trailing = true
    ∧ (∀ c, head text = Some c ∨ last text = Some c -> isspace c = false)
  end.
Proof.
  unfold read. destruct (open_read _ _) as [e | content]; [done |].
  destruct (lstrip_split content) as (leading & Hl & Hleading & _).
  destruct (rstrip_split (lstrip content)) as (trailing & Hr & Htrailing).
  exists leading, (strip content), trailing. split; [done |].
  split; [unfold strip; by rewrite <- Hr |].
  split; [done |]. split; [done |]. apply strip_trimmed.
Qed.

(** X2: a requirements file that is empty or holds only whitespace gives one
requirement, the empty string, not an empty list. *)
Theorem read_requirements_blank path content :
  open_read (path_join dirname [path]) "utf8" = inr content ->
  forallb isspace content = true ->
  read_requirements dirname open_read path = inr [[]].
Proof.
  intros Hopen Hblank. unfold read_requirements, read. simpl in *.
  by rewrite Hopen, (strip_blank content Hblank).
Qed.

(** X3: every requirement returned is free of line feeds and neither starts
nor ends with whitespace. *)
Theorem read_requirements_entries path reqs req :
  read_requirements dirname open_read path = inr reqs ->
  req ∈ reqs ->
  (LF ∉ req) ∧ (∀ c, head req = Some c ∨ last req = Some c -> isspace c = false).
Proof.
  unfold read_requirements. destruct (read _ _ _ _) as [e | content]; [done |].
  intros [= <-] (line & -> & Hline)%list_elem_of_fmap.
  split; [| apply strip_trimmed].
  apply list_elem_of_filter in Hline as [_ Hline].
  pose proof (split_pieces LF content) as Hall. rewrite Forall_forall in Hall.
  intros Hin%strip_subseteq. by apply (Hall line).
Qed.

(** The lines of a file, when the file neither starts nor ends with
whitespace: a line is dropped when it starts, at its first column, with
a double quote, [#], [-] or [git+]; the others are kept in order,
stripped. *)
Lemma read_requirements_lines path lines :
  lines ≠ [] ->
  Forall (λ line, LF ∉ line) lines ->
  (∀ c, head (join LF lines) = Some c -> isspace c = false) ->
  (∀ c, last (join LF lines) = Some c -> isspace c = false) ->
  open_read (path_join dirname [path]) "utf8" = inr (join LF lines) ->
  read_requirements dirname open_read path
  = inr (map strip (filter (λ line, startswith_any skipped line = false) lines)).
Proof.
  intros Hne Hlf Hhead Hlast Hopen. unfold read_requirements, read. simpl in *.
  by rewrite Hopen, strip_id, split_join.
Qed.

(** X4: once [read] has stripped the whole text, every line that still
starts with whitespace is kept, whatever follows the whitespace (a
[#], say): the prefixes are looked for at the first column of the
line as it is then, and the line is stripped afterwards.  The first
line is never such a line: the strip of the whole text has taken its
indentation away. *)
Theorem indented_line_is_kept path content line :
  open_read (path_join dirname [path]) "utf8" = inr content ->
  line ∈ split LF (strip content) ->
  (∃ c, head line = Some c ∧ isspace c = true) ->
  (∃ reqs, read_requirements dirname open_read path = inr reqs ∧ strip line ∈ reqs)
  ∧ ∀ first rest, split LF (strip content) = first :: rest -> line ≠ first.
Proof.
  intros Hopen Hin (c & Hc & Hsp). split.
  - unfold read_requirements, read. simpl in *. rewrite Hopen.
eexists. split; [reflexivity |]. apply list_elem_of_fmap. exists line. split; [done |].
apply list_elem_of_filter. split; [| done].
destruct line as [| c' rest]; [done |]. injection Hc as ->.
by apply skipped_not_space.
  - intros first rest Hsplit ->.
pose proof (head_split _ _ _ _ _ Hsplit Hc) as Hhead.
assert (isspace c = false) by (apply (strip_trimmed content); auto). congruence.
Qed.

(** X5, a round trip: plain requirements written one per line are read back as
they are, in order. *)
Theorem read_requirements_round_trip path reqs :
  reqs ≠ [] ->
  Forall plain_requirement reqs ->
  open_read (path_join dirname [path]) "utf8" = inr (join LF reqs) ->
  read_requirements dirname open_read path = inr reqs.
Proof.
  intros Hne Hplain Hopen.
  rewrite (read_requirements_lines path reqs Hne); [| | | | done].
  - f_equal. clear Hne Hopen.
induction Hplain as [| r rs (_ & _ & Hends & Hskip) _ IH]; [done |].
rewrite filter_cons_True by done. simpl. f_equal; [| done].
apply strip_id; intros c Hc; apply Hends; auto.
  - eapply Forall_impl; [exact Hplain |]. by intros r (_ & Hlf & _).
  - destruct reqs as [| r rs]; [done |]. apply Forall_cons in Hplain as [(Hr & _ & Hends & _) _].
intros c. rewrite head_join by done. auto.
  - destruct reqs as [| r rs _] using rev_ind; [done |].
apply Forall_app in Hplain as [_ [(Hr & _ & Hends & _) _]%Forall_cons].
intros c. rewrite last_join by done. auto.
Qed.

End Files.

Lemma read_requirements_blank_witness :
read_requirements "" (λ _ _, inr [32; 9; 10; 32]%N) "requirements.txt" = inr [[]].
Proof. by apply (read_requirements_blank "" _ "requirements.txt" [32; 9; 10; 32]%N). Defined.

Lemma read_requirements_entries_witness :
(LF ∉ code "# pinned below")
∧ (∀ c, head (code "# pinned below") = Some c ∨ last (code "# pinned below") = Some c ->
        isspace c = false).
Proof.
apply (read_requirements_entries "" (λ _ _, inr requirements_txt) "requirements.txt"
         [code "numpy"; code "# pinned below"; code "torch==2.0"]).
- reflexivity.
- apply list_elem_of_In. simpl. tauto.
Defined.

Lemma indented_line_is_kept_witness :
∃ reqs, read_requirements "" (λ _ _, inr requirements_txt) "requirements.txt" = inr reqs
        ∧ strip (code "  # pinned below") ∈ reqs.
Proof.
apply (indented_line_is_kept "" (λ _ _, inr requirements_txt) "requirements.txt"
         requirements_txt (code "  # pinned below")).
- reflexivity.
- apply list_elem_of_In. vm_compute. right. left. reflexivity.
- exists 32%N. split; reflexivity.
Defined.

Lemma read_requirements_round_trip_witness :
read_requirements "" (λ _ _, inr (join LF [code "numpy"; code "torch==2.0"]))
  "requirements.txt"
= inr [code "numpy"; code "torch==2.0"].
Proof.
apply (read_requirements_round_trip "" _ "requirements.txt").
- discriminate.
- repeat constructor; try discriminate; try reflexivity;
    try (intros H%list_elem_of_In; vm_compute in H; intuition discriminate);
    intros c [[= <-] | [= <-]]; reflexivity.
- reflexivity.
Defined.

End SetupFacts.

(** ** One pass, case by case *)

(** Lookups among the arrays that were alive before a step. *)
Ltac older' :=
  unfold keeps_older; intros i Hi; simpl in *;
  repeat match goal with H : heap _ = _ |- _ => rewrite H; clear H end;
  repeat match goal with
         | H : ∀ i, _ -> _ -> heap _ !! i = _ |- _ =>
             rewrite H by (first [ intros [= Heq]; rewrite ?length_app in *; simpl in *; lia
                                 | rewrite ?length_app; simpl; lia ]);
             clear H
         end;
  repeat first
    [ rewrite lookup_app_l by (rewrite ?length_insert, ?length_app; simpl; lia)
    | rewrite list_lookup_insert_ne by (rewrite ?length_app; simpl; lia) ];
  idtac.
Ltac older := older'; done.

(** The arguments of the transform among explicit events. *)
Ltac transform_args :=
  match goal with
  | Hin : In (EColormap _) _ |- _ =>
      simpl in Hin;
      repeat match type of Hin with _ ∨ _ => destruct Hin as [Hin | Hin] end;
      first [ discriminate Hin | by destruct Hin
            | injection Hin as <-; first [done | eauto] ]
  end.

Ltac pass_raised := repeat split; try done; first [older | transform_args].

Section Pass.

Context (w : Platform).

#[local] Arguments bind : simpl never.

(** Lines 107 and 108 on a display frame: either the overlay is drawn on
    the array, its resized copy is shown and nothing else happens, or the
    steps raise with nothing shown. *)
Lemma display_steps (m1 : machine) (display_frame frame : option nat) label o :
  match (cv2_putText display_frame o ;;;
         factor <- scale ;;;
         resized <- __resize w display_frame factor ;;;
         cv2_imshow w label resized ;;;
         ret frame) m1 with
  | (Ret frame', m2) =>
      frame' = frame
      ∧ ∃ r src new_width new_height b,
          display_frame = Some r ∧ heap m1 !! r = Some src
          ∧ length (shape src) = 3%nat
          ∧ round_product (nth 1 (shape src) 0) (__scale (self m1)) = inr new_width
          ∧ round_product (nth 0 (shape src) 0) (__scale (self m1)) = inr new_height
          ∧ Cv2.resize (Some (draw o src)) (new_width, new_height) INTER_AREA = inr b
          ∧ resize_at w (n_resize (cur m1)) = None
          ∧ imshow_at w (n_show (cur m1)) = None
          ∧ out m2 = out m1 ++ [EPutText r o; EImshow label b]
          ∧ windows m2 = <[label := b]> (windows m1)
          ∧ heap m2 = <[r := draw o src]> (heap m1) ++ [b]
          ∧ self m2 = self m1
          ∧ n_key (cur m2) = n_key (cur m1)
  | (Raise e, m2) =>
      (out m2 = out m1 ∨ ∃ r, out m2 = out m1 ++ [EPutText r o])
      ∧ windows m2 = windows m1 ∧ self m2 = self m1
      ∧ n_key (cur m2) = n_key (cur m1)
      ∧ ∀ i, (i < length (heap m1))%nat -> display_frame ≠ Some i ->
             heap m2 !! i = heap m1 !! i
  | (Timeout, m2) => False
  end.
Proof.
  unfold bind, cv2_putText, scale, __resize, bind, unpack_shape, cv2_resize,
    cv2_imshow, ret, lift, raise.
  destruct display_frame as [r |]; simpl; [| by auto].
  destruct (heap m1 !! r) as [a |] eqn:Hr; simpl; [| by auto].
  assert (∀ b i, (i < length (heap m1))%nat -> Some r ≠ Some i ->
                 (<[r := draw o a]> (heap m1) ++ b) !! i = heap m1 !! i) as Holder.
  { intros b i Hi Hne. rewrite lookup_app_l by (by rewrite length_insert).
    apply list_lookup_insert_ne. congruence. }
  pose proof (Holder []) as Holder'. rewrite app_nil_r in Holder'.
  rewrite list_lookup_insert_eq by (by eapply lookup_lt_Some). simpl.
  destruct (shape a) as [| h [| w' [| c [| ? ?]]]] eqn:Hsh; simpl; eauto 10.
  destruct (round_product w' _) as [e | new_width] eqn:Hnw; simpl; [by eauto 10 |].
  destruct (round_product h _) as [e | new_height] eqn:Hnh; simpl; [by eauto 10 |].
  rewrite list_lookup_insert_eq by (by eapply lookup_lt_Some).
  destruct (resize _ _ _) as [e | b] eqn:Hres; simpl; [by eauto 10 |].
  destruct (resize_at w _) as [e |] eqn:Halloc; simpl; [by eauto 10 |].
  rewrite lookup_app_r, Nat.sub_diag by done.
  simpl. destruct (imshow_at w _) eqn:Hshow; simpl; [by eauto 10 |].
  split; [done |]. exists r, a, new_width, new_height, b. rewrite Hsh. simpl.
  repeat split; try done. by rewrite <- app_assoc.
Qed.

(** The first half of a pass, case by case.  When it returns, the events
    are the read, the transform when rendering live, the overlay and the
    window of the loop; the array shown is the display frame, with the
    overlay of the frame rate, resized by the scale.  When it raises
    nothing was shown.  Either way no key was polled, and it never runs
    out of budget. *)
Lemma run_show_cases m :
  let est := estimator (self m) in
  match run_show w m with
  | (Ret frame, m1) =>
      ∃ ok fr r src fps new_width new_height b,
        camera_read_at w (n_read (cur m)) = inr (ok, fr)
        ∧ (if live_render est
           then colormap est fr = inr src
           else fr = Some src ∧ frame = Some r)
        ∧ frame_rate (perf_counter_at w (n_perf (cur m)))
            (perf_counter_at w (S (n_perf (cur m)))) = inr fps
        ∧ length (shape src) = 3%nat
        ∧ round_product (nth 1 (shape src) 0) (__scale (self m)) = inr new_width
        ∧ round_product (nth 0 (shape src) 0) (__scale (self m)) = inr new_height
        ∧ Cv2.resize (Some (draw (fps_overlay fps) src)) (new_width, new_height) INTER_AREA
          = inr b
        ∧ resize_at w (n_resize (cur m)) = None
        ∧ imshow_at w (n_show (cur m)) = None
        ∧ out m1 = out m
            ++ ERead ok frame :: (if live_render est then [EColormap fr] else [])
            ++ [EPutText r (fps_overlay fps); EImshow (window_label (live_render est)) b]
        ∧ windows m1 = <[window_label (live_render est) := b]> (windows m)
        ∧ self m1 = self m
        ∧ n_key (cur m1) = n_key (cur m)
        ∧ keeps_older m m1
  | (Raise e, m1) =>
      ∃ evs, out m1 = out m ++ evs ∧ forallb before_display evs = true
             ∧ windows m1 = windows m ∧ self m1 = self m
             ∧ n_key (cur m1) = n_key (cur m) ∧ keeps_older m m1
             ∧ ∀ arg, In (EColormap arg) evs ->
                 live_render est = true
                 ∧ ∃ ok, camera_read_at w (n_read (cur m)) = inr (ok, arg)
  | (Timeout, m1) => False
  end.
Proof.
  intros est. unfold run_show.
  rewrite bind_run. simpl. rewrite bind_run. unfold camera_read.
  destruct (camera_read_at w _) as [e | [ok [a |]]] eqn:Hread; simpl.
  - exists []. rewrite app_nil_r. pass_raised.
  - rewrite bind_run. simpl. rewrite bind_run. fold est.
    destruct (live_render est) eqn:Hlr; simpl.
    + unfold estimator_colormap. simpl. fold est.
      rewrite lookup_app_r, Nat.sub_diag by done. simpl.
      destruct (colormap est (Some a)) as [e | cm] eqn:Hcm; simpl.
      { exists [ERead ok (Some (length (heap m))); EColormap (Some a)].
        rewrite <- !app_assoc. pass_raised. }
      rewrite bind_run. simpl. rewrite bind_run.
      destruct (truediv_1 _) as [e | q] eqn:Hdiv; simpl.
      { exists [ERead ok (Some (length (heap m))); EColormap (Some a)].
        rewrite <- !app_assoc. pass_raised. }
      rewrite bind_run.
      destruct (round_float q) as [e | fps] eqn:Hfps; simpl.
      { exists [ERead ok (Some (length (heap m))); EColormap (Some a)].
        rewrite <- !app_assoc. pass_raised. }
      rewrite bind_run. simpl. fold est. rewrite Hlr.
      lazymatch goal with
      | |- context [bind (cv2_putText ?df ?o) ?k ?m1] =>
          pose proof (display_steps m1 df (Some (length (heap m))) "Depth Capture" o) as H;
          destruct (bind (cv2_putText df o) k m1) as [[frame' | e |] m2]
      end; simpl in *; [| | done].
      * destruct H as (-> & r & src & nw & nh & b & [= <-] & Hsrc & Hlen & Hnw & Hnh & Hres
                       & Halloc & Hshow & Hout & Hwin & Hheap & Hself & Hkey).
        rewrite lookup_app_r, Nat.sub_diag in Hsrc by (by rewrite length_app). simpl in Hsrc.
        injection Hsrc as <-.
        exists ok, (Some a), (length (heap m ++ [a])), cm, fps, nw, nh, b.
        rewrite Hout, Hwin, <- !app_assoc. simpl.
        unfold frame_rate. rewrite Hdiv.
        repeat split; try done. older.
      * destruct H as (Hout & Hwin & Hself & Hkey & Hheap).
        destruct Hout as [Hout | [r Hout]]; rewrite Hout, Hwin, Hself, <- ?app_assoc;
          eexists; (split; [simpl; reflexivity |]); pass_raised.
    + rewrite bind_run. simpl. rewrite bind_run.
      destruct (truediv_1 _) as [e | q] eqn:Hdiv; simpl.
      { exists [ERead ok (Some (length (heap m)))].
        pass_raised. }
      rewrite bind_run.
      destruct (round_float q) as [e | fps] eqn:Hfps; simpl.
      { exists [ERead ok (Some (length (heap m)))].
        pass_raised. }
      rewrite bind_run. simpl. fold est. rewrite Hlr.
      lazymatch goal with
      | |- context [bind (cv2_putText ?df ?o) ?k ?m1] =>
          pose proof (display_steps m1 df (Some (length (heap m))) "Standard Camera" o) as H;
          destruct (bind (cv2_putText df o) k m1) as [[frame' | e |] m2]
      end; simpl in *; [| | done].
      * destruct H as (-> & r & src & nw & nh & b & [= <-] & Hsrc & Hlen & Hnw & Hnh & Hres
                       & Halloc & Hshow & Hout & Hwin & Hheap & Hself & Hkey).
        rewrite lookup_app_r, Nat.sub_diag in Hsrc by done. simpl in Hsrc.
        injection Hsrc as <-.
        exists ok, (Some a), (length (heap m)), a, fps, nw, nh, b.
        rewrite Hout, Hwin, <- !app_assoc. simpl.
        unfold frame_rate. rewrite Hdiv.
        repeat split; try done. older.
      * destruct H as (Hout & Hwin & Hself & Hkey & Hheap).
        destruct Hout as [Hout | [r Hout]]; rewrite Hout, Hwin, Hself, <- ?app_assoc;
          eexists; (split; [simpl; reflexivity |]); pass_raised.
  - rewrite bind_run. simpl. rewrite bind_run. fold est.
    destruct (live_render est) eqn:Hlr; simpl.
    + unfold estimator_colormap. simpl. fold est.
      destruct (colormap est None) as [e | cm] eqn:Hcm; simpl.
      { exists [ERead ok None; EColormap None].
        rewrite <- !app_assoc. pass_raised. }
      rewrite bind_run. simpl. rewrite bind_run.
      destruct (truediv_1 _) as [e | q] eqn:Hdiv; simpl.
      { exists [ERead ok None; EColormap None].
        rewrite <- !app_assoc. pass_raised. }
      rewrite bind_run.
      destruct (round_float q) as [e | fps] eqn:Hfps; simpl.
      { exists [ERead ok None; EColormap None].
        rewrite <- !app_assoc. pass_raised. }
      rewrite bind_run. simpl. fold est. rewrite Hlr.
      lazymatch goal with
      | |- context [bind (cv2_putText ?df ?o) ?k ?m1] =>
          pose proof (display_steps m1 df None "Depth Capture" o) as H;
          destruct (bind (cv2_putText df o) k m1) as [[frame' | e |] m2]
      end; simpl in *; [| | done].
      * destruct H as (-> & r & src & nw & nh & b & [= <-] & Hsrc & Hlen & Hnw & Hnh & Hres
                       & Halloc & Hshow & Hout & Hwin & Hheap & Hself & Hkey).
        rewrite lookup_app_r, Nat.sub_diag in Hsrc by done. simpl in Hsrc.
        injection Hsrc as <-.
        exists ok, None, (length (heap m)), cm, fps, nw, nh, b.
        rewrite Hout, Hwin, <- !app_assoc. simpl.
        unfold frame_rate. rewrite Hdiv.
        repeat split; try done. older.
      * destruct H as (Hout & Hwin & Hself & Hkey & Hheap).
        destruct Hout as [Hout | [r Hout]]; rewrite Hout, Hwin, Hself, <- ?app_assoc;
          eexists; (split; [simpl; reflexivity |]); pass_raised.
    + rewrite bind_run. simpl. rewrite bind_run.
      destruct (truediv_1 _) as [e | q] eqn:Hdiv; simpl.
      { exists [ERead ok None]. pass_raised. }
      rewrite bind_run.
      destruct (round_float q) as [e | fps] eqn:Hfps; simpl.
      { exists [ERead ok None]. pass_raised. }
      exists [ERead ok None]. pass_raised.
Qed.

(** [capture], case by case: it returns after the transform and the
    window, or raises from one of the two, and never runs out of budget. *)
Lemma capture_cases frame m :
  let arg := deref m frame in
  let d := now_at w (n_now (cur m)) in
  let d' := now_at w (S (n_now (cur m))) in
  let title := "Depth Scan - " +:+ strftime_clock d' in
  match capture w frame m with
  | (Ret _, m') =>
      ∃ cm, colormap (estimator (self m)) arg = inr cm
            ∧ imshow_at w (n_show (cur m)) = None
            ∧ out m' = out m ++ [ECall_capture frame arg; EColormap arg;
                                 EPrint (capture_line d d'); EImshow title cm]
            ∧ windows m' = <[title := cm]> (windows m)
            ∧ heap m' = heap m ++ [cm] ∧ self m' = self m
  | (Raise e, m') =>
      self m' = self m ∧ windows m' = windows m
      ∧ ((colormap (estimator (self m)) arg = inl e
          ∧ out m' = out m ++ [ECall_capture frame arg; EColormap arg]
          ∧ heap m' = heap m)
         ∨ (∃ cm, colormap (estimator (self m)) arg = inr cm
                  ∧ imshow_at w (n_show (cur m)) = Some e
                  ∧ out m' = out m ++ [ECall_capture frame arg; EColormap arg;
                                       EPrint (capture_line d d')]
                  ∧ heap m' = heap m ++ [cm]))
  | (Timeout, _) => False
  end.
Proof.
  intros arg d d' title.
  unfold capture, bind, estimator_colormap, datetime_now, print, cv2_imshow. simpl.
  assert (deref (emit (ECall_capture frame (deref m frame)) m) frame = arg)
    as -> by (by destruct frame).
  fold arg. destruct (colormap (estimator (self m)) arg) as [e | cm]; simpl.
  - repeat split; try done. left. by rewrite <- !app_assoc.
  - rewrite lookup_app_r, Nat.sub_diag by done. simpl.
    destruct (imshow_at w _) as [e |]; simpl.
    + repeat split; try done. right. exists cm. by rewrite <- !app_assoc.
    + exists cm. by rewrite <- !app_assoc.
Qed.

(** The second half of a pass, case by case on what the key poll gives. *)
Lemma run_keys_cases frame m :
  let lr := live_render (estimator (self m)) in
  match waitKey_at w (n_key (cur m)) with
  | inl e =>
      ∃ m', run_keys w frame m = (Raise e, m')
            ∧ out m' = out m ∧ self m' = self m ∧ heap m' = heap m
            ∧ windows m' = windows m
  | inr k =>
      ∃ mk, cv2_waitKey w 10 m = (Ret k, mk)
            ∧ out mk = out m ++ [EWaitKey 10 k] ∧ self mk = self m
            ∧ heap mk = heap m ∧ windows mk = windows m
            ∧ n_now (cur mk) = n_now (cur m) ∧ n_show (cur mk) = n_show (cur m)
            ∧ if (k =? 32) && negb lr
              then run_keys w frame m
                   = match capture w frame mk with
                     | (Ret _, m') => (Ret Next, m')
                     | (Raise e, m') => (Raise e, m')
                     | (Timeout, m') => (Timeout, m')
                     end
              else if (k =? 27) || (k =? ord "q")
              then ∃ m', run_keys w frame m = (Ret Break, m')
                         ∧ out m' = out mk ++ [EPrint "Closing scanner..."]
                         ∧ is_running (self m') = false
                         ∧ heap m' = heap m ∧ windows m' = windows m
              else run_keys w frame m = (Ret Next, mk)
  end.
Proof.
  intros lr. unfold run_keys, bind, cv2_waitKey, estimator_live_render.
  destruct (waitKey_at w _) as [e | k]; simpl; [by eexists |].
  eexists. split; [reflexivity |]. simpl. repeat (split; [done |]).
  fold lr. destruct (k =? 32) eqn:Hk; simpl.
  - destruct lr; simpl.
    + apply Z.eqb_eq in Hk as ->. done.
    + apply Z.eqb_eq in Hk as ->. simpl.
      by destruct (capture w frame _) as [[[] | e |] m'].
  - destruct (_ || _); [| done]. by eexists.
Qed.


End Pass.

(** ** The events of a run, call by call *)

(** The rule of [run] for a relation that admits each event where the
    source emits it: the hypotheses follow the statements of [run_show],
    [run_keys], [capture] and [run]. *)
Section Events.

Context (w : Platform) (est : DepthEstimator).
Context (R : machine -> machine -> Prop) `{!Frame R}.

Hypothesis Hread : ∀ ok f, admits R (ERead ok f).
Hypothesis Hcolormap : ∀ a, admits R (EColormap a).
Hypothesis Hput : ∀ r fps, admits R (EPutText r (fps_overlay fps)).
Hypothesis Hshow : ∀ b, admits R (EImshow (window_label (live_render est)) b).
Hypothesis Hpoll : ∀ k, admits R (EWaitKey 10 k).
Hypothesis Hcall : live_render est = false -> ∀ f a, admits R (ECall_capture f a).
Hypothesis Hline : live_render est = false -> ∀ d d', admits R (EPrint (capture_line d d')).
Hypothesis Hscan :
  live_render est = false ->
  ∀ d b, admits R (EImshow ("Depth Scan - " +:+ strftime_clock d) b).
Hypothesis Hquit : admits R (EPrint "Closing scanner...").
Hypothesis Hflag : ∀ m b, R m (snd (set_is_running b m)).

Lemma sound_set_is_running b : sound R est (set_is_running b) (λ _, True).
Proof. intros m Hm. split; [apply Hflag | done]. Qed.

Lemma sound_capture_events frame :
  live_render est = false -> sound R est (capture w frame) (λ _, True).
Proof.
  intros Hlr. unfold capture.
  eapply sound_bind with (post := λ _, True); [typeclasses eauto | |].
  { call sound_step; [intros m; by apply Hcall | done]. }
  intros _ _. seq ltac:(call sound_estimator_colormap; try assumption).
  intros colored_map _. eapply sound_bind with (post := λ _, True); [typeclasses eauto | |].
  { call sound_step; [intros m; by apply frame_cur | done]. }
  intros d _. eapply sound_bind with (post := λ _, True); [typeclasses eauto | |].
  { call sound_step; [intros m; by apply frame_cur | done]. }
  intros d' _. seq ltac:(call sound_print; by apply Hline).
  intros _ _. call sound_cv2_imshow. by apply Hscan.
Qed.

Lemma sound_run_show_events : sound R est (run_show w) (λ _, True).
Proof.
  unfold run_show.
  seq ltac:(call sound_perf_counter; try assumption). intros t0 _.
  seq ltac:(call sound_camera_read; try assumption). intros rf _.
  seq ltac:(call sound_estimator_live_render; try assumption). intros lr ->.
  eapply sound_bind with (post := λ _, True); [typeclasses eauto | |].
  { destruct (live_render est); [by call sound_estimator_colormap; try assumption | by call sound_ret]. }
  intros display_frame _.
  seq ltac:(call sound_perf_counter; try assumption). intros t1 _.
  seq ltac:(call sound_lift; try assumption). intros q _.
  seq ltac:(call sound_lift; try assumption). intros fps _.
  seq ltac:(call sound_estimator_live_render; try assumption). intros lr' ->.
  seq ltac:(call sound_cv2_putText; intros; apply Hput). intros _ _.
  seq ltac:(call sound_scale; try assumption). intros factor _.
  seq ltac:(call sound___resize; try assumption). intros resized _.
  seq ltac:(call sound_cv2_imshow; apply Hshow). intros _ _.
  by call sound_ret.
Qed.

Lemma sound_run_keys_fine frame : sound R est (run_keys w frame) (λ _, True).
Proof.
  unfold run_keys.
  seq ltac:(call sound_cv2_waitKey; try assumption). intros key _.
  seq ltac:(call sound_estimator_live_render; try assumption). intros lr ->.
  eapply sound_bind with (post := λ _, True); [typeclasses eauto | |].
  { destruct (key =? 32); simpl; [| by call sound_ret].
    pose proof (sound_capture_events frame) as Hc.
    destruct (live_render est); simpl; [by call sound_ret | by apply Hc]. }
  intros _ _. destruct (_ || _); [| by call sound_ret].
  seq ltac:(call sound_print; try assumption). intros _ _.
  seq ltac:(apply sound_set_is_running). intros _ _.
  by call sound_ret.
Qed.

Lemma sound_run_body_fine : sound R est (run_body w) (λ _, True).
Proof.
  unfold run_body. eapply sound_bind; [done | apply sound_run_show_events |].
  intros frame _. apply sound_run_keys_fine.
Qed.

Lemma sound_while_fine fuel :
  sound R est (while_is_running fuel (run_body w)) (λ _, True).
Proof.
  induction fuel as [| fuel IH]; intros m Hm; simpl.
  - destruct (is_running (self m)); simpl; (split; [apply frame_refl | done]).
  - destruct (is_running (self m)); simpl; [| split; [apply frame_refl | done]].
    destruct (sound_run_body_fine m Hm) as (Hg & He & _).
    destruct (run_body w m) as [[[|] | e |] m1]; simpl in *; try done.
    destruct (IH m1 He) as (Hg' & He' & _).
    split; [eapply frame_trans; eassumption | done].
Qed.

Hypothesis Hbanner :
  admits R (EPrint ("[" +:+ upper (device est) +:+ "] Running depth scan...")).
Hypothesis Herror : ∀ e, admits R (EPrint ("Error during camera streaming: " +:+ exn_str e)).
Hypothesis Hrelease : admits R ERelease.
Hypothesis Hdestroy : admits R EDestroyAllWindows.
Hypothesis Hclosed : admits R (EPrint "Scanner closed!").

Lemma sound_run_fine fuel : sound R est (run w fuel) (λ _, True).
Proof.
  unfold run.
  seq ltac:(apply sound_set_is_running). intros _ _.
  eapply sound_bind with (post := λ dev, dev = device est); [typeclasses eauto | |].
  { intros m Hm. split; [apply frame_refl | split; [done |]]. simpl.
    intros a [= <-]. by rewrite Hm. }
  intros dev ->.
  seq ltac:(call sound_print; try assumption). intros _ _.
  eapply sound_bind; [typeclasses eauto | | intros _ _; by call sound_print].
  call sound_try; [apply sound_while_fine | intros e; by call sound_print |].
  seq ltac:(call sound_camera_release; try assumption). intros _ _.
  by call sound_cv2_destroyAllWindows.
Qed.

End Events.

#[export] Instance emits_frame P : Frame (emits P).
Proof.
  split.
  - intros m. exists []. by rewrite app_nil_r.
  - intros m1 m2 m3 (e1 & H1 & F1) (e2 & H2 & F2). exists (e1 ++ e2).
    split; [by rewrite H2, H1, app_assoc | by apply Forall_app].
  - intros h m. exists []. by rewrite app_nil_r.
  - intros ws m. exists []. by rewrite app_nil_r.
  - intros c m. exists []. by rewrite app_nil_r.
Qed.

Lemma emits_admits (P : event -> Prop) e : P e -> admits (emits P) e.
Proof. intros He m. exists [e]. split; [done | by apply Forall_singleton]. Qed.

(** X6: every action of [run()] that the outside sees is one of these: the
    banner with the device in upper case, the quit notice, the closing
    notice, an error line, a read, a transform, an overlay [FPS: n] drawn
    at (10, 30), a key poll of 10 ms, the release of the camera, the closing
    of the windows, a window titled [Depth Capture] when the estimator
    renders live; and when it does not, a window titled [Standard Camera]
    or [Depth Scan - HH:MM:SS], an entry into [capture] and its log line. *)
Theorem run_vocabulary w fuel m :
  ∃ evs, out (snd (run w fuel m)) = out m ++ evs
         ∧ Forall (run_event (estimator (self m))) evs.
Proof.
  set (est := estimator (self m)).
  assert (sound (emits (run_event est)) est (run w fuel) (λ _, True)) as Hs.
  { apply sound_run_fine; try typeclasses eauto; intros;
      try (apply emits_admits; simpl; unfold run_line, run_title; eauto 8; fail).
    - apply emits_admits. simpl. unfold run_title, window_label.
      destruct (live_render est); auto.
    - apply emits_admits. simpl. unfold run_title. rewrite H. eauto.
    - exists []. by rewrite app_nil_r. }
  by destruct (Hs m eq_refl) as (Hg & _).
Qed.


(** ** More of [run], [capture] and [__resize] *)

Section Extras.

Context (w : Platform).

#[local] Arguments bind : simpl never.

(** X13: a key that is neither Esc nor [q], and is not the space bar
    unless the estimator renders live, does nothing: the pass falls
    through to the next one and only the poll itself is observed. *)
Theorem other_keys_are_ignored frame m k :
  waitKey_at w (n_key (cur m)) = inr k ->
  k ≠ 27 -> k ≠ ord "q" ->
  (k = 32 -> live_render (estimator (self m)) = true) ->
  ∃ m', run_keys w frame m = (Ret Next, m')
        ∧ out m' = out m ++ [EWaitKey 10 k]
        ∧ self m' = self m ∧ heap m' = heap m ∧ windows m' = windows m.
Proof.
  intros Hk H27 Hq H32. pose proof (run_keys_cases w frame m) as H.
  cbv zeta in H. rewrite Hk in H.
  destruct H as (mk & Hw & Ho & Hs & Hh & Hwin & _ & _ & H).
  assert ((k =? 32) && negb (live_render (estimator (self m))) = false) as E1.
  { destruct (Z.eqb_spec k 32) as [E |]; [by rewrite (H32 E) | done]. }
  assert ((k =? 27) || (k =? ord "q") = false) as E2.
  { destruct (Z.eqb_spec k 27); [done |]. by destruct (Z.eqb_spec k (ord "q")). }
  rewrite E1, E2 in H. by exists mk.
Qed.

(** A pass whose first half raises is over: the keyboard is not polled. *)
Lemma run_body_show_raised m e m1 :
  run_show w m = (Raise e, m1) -> run_body w m = (Raise e, m1).
Proof. intros H. unfold run_body. by rewrite bind_run, H. Qed.

Lemma run_body_shown m frame m1 :
  run_show w m = (Ret frame, m1) -> run_body w m = run_keys w frame m1.
Proof. intros H. unfold run_body. by rewrite bind_run, H. Qed.

(** X12: without live rendering, a space bar press after a displayed
    frame, with a transform and a window that succeed, opens the window
    [Depth Scan - HH:MM:SS] beside the one of the loop, which stays as it
    was, and the loop goes on with its next pass, [is_running] still
    set. *)
Theorem snapshot_keeps_streaming m frame m1 cm fuel :
  is_running (self m) = true ->
  live_render (estimator (self m)) = false ->
  run_show w m = (Ret frame, m1) ->
  waitKey_at w (n_key (cur m1)) = inr 32 ->
  colormap (estimator (self m)) (deref m1 frame) = inr cm ->
  imshow_at w (n_show (cur m1)) = None ->
  let d := now_at w (n_now (cur m1)) in
  let d' := now_at w (S (n_now (cur m1))) in
  let title := "Depth Scan - " +:+ strftime_clock d' in
  ∃ m2,
    run_body w m = (Ret Next, m2)
    ∧ while_is_running (S fuel) (run_body w) m = while_is_running fuel (run_body w) m2
    ∧ is_running (self m2) = true
    ∧ out m2 = out m1 ++
        [EWaitKey 10 32; ECall_capture frame (deref m1 frame);
         EColormap (deref m1 frame); EPrint (capture_line d d'); EImshow title cm]
    ∧ windows m2 = <[title := cm]> (windows m1)
    ∧ windows m2 !! "Standard Camera" = windows m1 !! "Standard Camera".
Proof.
  intros Hrun Hlr Hshow Hk Hcm Him d d' title.
  assert (self m1 = self m) as Hself by (rewrite <- (run_show_self w m); by rewrite Hshow).
  pose proof (run_keys_cases w frame m1) as H. cbv zeta in H. rewrite Hk in H.
  destruct H as (mk & Hw & Ho & Hs & Hh & Hwin & Hnow & Hnshow & H).
  rewrite Hself, Hlr in H. simpl in H.
  pose proof (capture_cases w frame mk) as Hc. cbv zeta in Hc.
  assert (deref mk frame = deref m1 frame) as Hd by (unfold deref; by rewrite Hh).
  rewrite Hs, Hself, Hd, Hnow, Hnshow in Hc.
  destruct (capture w frame mk) as [[[] | e |] m2] eqn:Hcap.
  - destruct Hc as (cm' & Hcm' & _ & Hout & Hwins & Hheap & Hself2).
    assert (cm' = cm) as -> by congruence.
    assert (run_body w m = (Ret Next, m2)) as Hbody by (by rewrite (run_body_shown _ _ _ Hshow)).
    exists m2. split; [done |]. split; [simpl; by rewrite Hrun, Hbody |].
    split; [by rewrite Hself2 |].
    split; [by rewrite Hout, Ho, <- app_assoc |].
    split; [by rewrite Hwins, Hwin |].
    rewrite Hwins, Hwin. by apply lookup_insert_ne.
  - destruct Hc as (_ & _ & [(Hcm' & _) | (cm' & _ & Him' & _)]); congruence.
  - done.
Qed.


(** X11: without live rendering, a space bar press whose transform raises
    an [Exception] ends the whole run: nothing is logged by [capture],
    the handler prints the error, the camera is released and every
    window, the one of the loop included, is closed. *)
Theorem failed_capture_ends_run n m0 m frame m1 e fuel :
  after_passes w n m0 m ->
  is_running (self m) = true ->
  live_render (estimator (self m)) = false ->
  run_show w m = (Ret frame, m1) ->
  waitKey_at w (n_key (cur m1)) = inr 32 ->
  colormap (estimator (self m)) (deref m1 frame) = inl e ->
  isinstance_Exception (exn_cls e) = true ->
  ∃ m2,
    run_try w (n + S fuel) m0 = (Ret tt, m2)
    ∧ out m2 = out m1 ++
        [EWaitKey 10 32; ECall_capture frame (deref m1 frame);
         EColormap (deref m1 frame);
         EPrint ("Error during camera streaming: " +:+ exn_str e);
         ERelease; EDestroyAllWindows]
    ∧ windows m2 = ∅.
Proof.
  intros Hpass Hrun Hlr Hshow Hk Hcm Hexc.
  assert (self m1 = self m) as Hself by (rewrite <- (run_show_self w m); by rewrite Hshow).
  pose proof (run_keys_cases w frame m1) as H. cbv zeta in H. rewrite Hk in H.
  destruct H as (mk & Hw & Ho & Hs & Hh & Hwin & Hnow & Hnshow & H).
  rewrite Hself, Hlr in H. simpl in H.
  pose proof (capture_cases w frame mk) as Hc. cbv zeta in Hc.
  assert (deref mk frame = deref m1 frame) as Hd by (unfold deref; by rewrite Hh).
  rewrite Hs, Hself, Hd, Hnow, Hnshow in Hc.
  destruct (capture w frame mk) as [[[] | e' |] m2] eqn:Hcap.
  - destruct Hc as (cm' & Hcm' & _). congruence.
  - destruct Hc as (Hself2 & Hwins & [(Hcm' & Hout & _) | (cm' & Hcm' & _)]);
      [| congruence].
    assert (e' = e) as -> by congruence.
    assert (run_body w m = (Raise e, m2)) as Hbody
      by (by rewrite (run_body_shown _ _ _ Hshow)).
    eexists. split.
    { apply run_try_caught; [| done].
      rewrite (while_after_passes w n (S fuel) m0 m Hpass).
      by apply while_Raise. }
    split; [| done]. simpl. by rewrite Hout, Ho, <- !app_assoc.
  - done.
Qed.

(** A frame that is [None], without live rendering: the first half of the
    pass raises an [Exception] after the read. *)
Lemma run_show_None m ok :
  live_render (estimator (self m)) = false ->
  camera_read_at w (n_read (cur m)) = inr (ok, None) ->
  ∃ e m1, run_show w m = (Raise e, m1)
          ∧ isinstance_Exception (exn_cls e) = true
          ∧ out m1 = out m ++ [ERead ok None].
Proof.
  intros Hlr Hread. pose proof (run_show_cases w m) as H. cbv zeta in H.
  rewrite Hlr, Hread in H.
  destruct (run_show_None_raises w m ok Hlr Hread) as (e & He & Hexc).
  destruct (run_show w m) as [[frame | e' |] m1] eqn:Hshow; simpl in He; try done.
  injection He as ->. exists e, m1. split; [done |]. split; [done |].
  clear H. revert Hshow. unfold run_show.
  rewrite bind_run. simpl. rewrite bind_run. unfold camera_read. simpl. rewrite Hread.
  rewrite bind_run. simpl. rewrite Hlr. rewrite bind_run. simpl. rewrite bind_run. simpl.
  rewrite bind_run.
  destruct (truediv_1 _) as [e1 | q]; simpl; [by intros [= <- <-] |].
  rewrite bind_run.
  destruct (round_float q) as [e1 | fps]; simpl; [by intros [= <- <-] |].
  by intros [= <- <-].
Qed.

(** X10: without live rendering, a read that delivers no frame ends the
    run in that pass: after the read nothing is drawn, shown or polled,
    the handler prints the error, and the teardown follows. *)
Theorem failed_read_ends_run n m0 m ok fuel :
  after_passes w n m0 m ->
  is_running (self m) = true ->
  live_render (estimator (self m)) = false ->
  camera_read_at w (n_read (cur m)) = inr (ok, None) ->
  ∃ e m2,
    isinstance_Exception (exn_cls e) = true
    ∧ run_try w (n + S fuel) m0 = (Ret tt, m2)
    ∧ out m2 = out m ++
        [ERead ok None; EPrint ("Error during camera streaming: " +:+ exn_str e);
         ERelease; EDestroyAllWindows]
    ∧ windows m2 = ∅.
Proof.
  intros Hpass Hrun Hlr Hread.
  destruct (run_show_None m ok Hlr Hread) as (e & m1 & Hshow & Hexc & Hout).
  exists e. eexists. split; [done |]. split.
  { apply run_try_caught; [| done].
    rewrite (while_after_passes w n (S fuel) m0 m Hpass).
    apply while_Raise; [done |]. by apply run_body_show_raised. }
  split; [| done]. simpl. by rewrite Hout, <- !app_assoc.
Qed.


Lemma run_try_uncaught fuel m e m1 :
  while_is_running fuel (run_body w) m = (Raise e, m1) ->
  isinstance_Exception (exn_cls e) = false ->
  run_try w fuel m
  = (Raise e, emit EDestroyAllWindows (with_windows ∅ (emit ERelease m1))).
Proof.
  intros Hloop Hcls. unfold run_try, try_except_Exception_finally.
  by rewrite Hloop, Hcls.
Qed.

(** What [cv2.resize] returns when it returns. *)
Lemma resize_result a dsize interp b :
  Cv2.resize (Some a) dsize interp = inr b ->
  length (shape a) = 3%nat ->
  b = {| shape := resized_shape (shape a) dsize; px := Resampled dsize interp (px a) |}
  ∧ 0 < nth 0 (shape a) 0 ∧ 0 < nth 1 (shape a) 0
  ∧ 1 <= fst dsize <= INT_MAX ∧ 1 <= snd dsize <= INT_MAX.
Proof.
  intros Hres Hlen.
  destruct (shape a) as [| h [| w' [| c [| ? ?]]]] eqn:Hsh; try done.
  unfold Cv2.resize, src_size, size_empty in Hres. rewrite Hsh in Hres. simpl in *.
  destruct (_ || _) eqn:Hsrc in Hres; [done |].
  destruct (_ || _) eqn:Hfit in Hres; [done |].
  destruct (_ || _) eqn:Hdst in Hres; [done |].
  injection Hres as <-.
  apply orb_false_elim in Hsrc as [Hw' Hh], Hdst as [Hdw Hdh].
  apply orb_false_elim in Hfit as [Hfit _].
  apply orb_false_elim in Hfit as [Hfit _].
  apply orb_false_elim in Hfit as [Hfw Hfh].
  repeat split; lia.
Qed.

(** And when it does. *)
Lemma resize_accepts a h w' c dsize interp :
  shape a = [h; w'; c] -> 0 < h -> 0 < w' ->
  1 <= fst dsize <= INT_MAX -> 1 <= snd dsize <= INT_MAX ->
  Cv2.resize (Some a) dsize interp
  = inr {| shape := resized_shape (shape a) dsize; px := Resampled dsize interp (px a) |}.
Proof.
  intros Hsh Hh Hw Hdw Hdh. unfold Cv2.resize, src_size, size_empty, resized_shape.
  rewrite Hsh. simpl.
  replace (w' <=? 0) with false by lia. replace (h <=? 0) with false by lia. simpl.
  replace (INT_MAX <? _) with false by lia. replace (INT_MAX <? _) with false by lia.
  simpl.
  replace (_ <? - INT_MAX - 1) with false by (unfold INT_MAX in *; lia).
  replace (_ <? - INT_MAX - 1) with false by (unfold INT_MAX in *; lia).
  replace (_ <=? 0) with false by lia. replace (_ <=? 0) with false by lia. done.
Qed.

(** It refuses a target size that is empty or does not fit. *)
Lemma resize_refuses a dsize interp :
  length (shape a) = 3%nat ->
  ¬ (1 <= fst dsize <= INT_MAX ∧ 1 <= snd dsize <= INT_MAX) ->
  ∃ e, Cv2.resize (Some a) dsize interp = inl e ∧ exn_cls e = cv2_error.
Proof.
  intros Hlen Hno.
  destruct (Cv2.resize (Some a) dsize interp) as [e | b] eqn:Hres.
  - exists e. split; [done |]. revert Hres. unfold Cv2.resize.
    destruct (src_size _) as [[ssize tail] |]; [| by intros [= <-]].
    destruct (size_empty ssize); [by intros [= <-] |].
    destruct (_ || _); [by intros [= <-] |].
    destruct (size_empty dsize); [by intros [= <-] | done].
  - apply resize_result in Hres as (_ & _ & _ & ? & ?); [| done]. by destruct Hno.
Qed.

(** No target size comes out of a factor that is zero or negative. *)
Lemma resize_nonpositive o src s new_width new_height b :
  (s <= 0)%Q ->
  round_product (nth 1 (shape src) 0) s = inr new_width ->
  Cv2.resize (Some (draw o src)) (new_width, new_height) INTER_AREA = inr b ->
  length (shape src) = 3%nat ->
  False.
Proof.
  intros Hs Hnw Hres Hlen.
  apply resize_result in Hres as (_ & _ & Hw & Hdw & _); [| done]. simpl in *.
  destruct (round_product_pos _ _ _ Hnw) as [_ Hpos]; [lia | lia |].
  by apply (Qlt_not_le _ _ Hpos).
Qed.

Lemma before_display_blind evs :
  forallb before_display evs = true -> forallb blind evs = true.
Proof.
  induction evs as [| e evs IH]; [done |]. simpl.
  intros [He Hevs]%andb_prop. rewrite (IH Hevs). by destruct e.
Qed.

(** X9: with a scale that is zero or negative [run()] ends in its first
    pass, whatever the camera and the keys: it never shows a window,
    never polls the keyboard, never enters [capture], and leaves no
    window open. *)
Theorem nonpositive_scale_shows_nothing fuel m :
  (__scale (self m) <= 0)%Q ->
  fst (run w (S fuel) m) ≠ Timeout
  ∧ windows (snd (run w (S fuel) m)) = ∅
  ∧ ∃ evs, out (snd (run w (S fuel) m)) = out m ++ evs ∧ forallb blind evs = true.
Proof.
  intros Hs. rewrite run_unfold.
  pose proof (run_show_cases w (run_entry m)) as H. cbv zeta in H.
  destruct (run_show w (run_entry m)) as [[frame | e |] m1] eqn:Hshow; [| | done].
  { destruct H as (ok & fr & r & src & fps & nw & nh & b & _ & _ & _ & Hlen & Hnw & _ & Hres & _).
    by destruct (resize_nonpositive _ _ _ _ _ _ Hs Hnw Hres Hlen). }
  destruct H as (evs & Hout & Hevs & _).
  apply before_display_blind in Hevs.
  assert (while_is_running (S fuel) (run_body w) (run_entry m) = (Raise e, m1)) as Hloop.
  { apply while_Raise; [done |]. by apply run_body_show_raised. }
  rewrite bind_run.
  destruct (isinstance_Exception (exn_cls e)) eqn:Hexc.
  - rewrite (run_try_caught w _ _ _ _ Hloop Hexc). simpl.
    split; [done |]. split; [done |]. eexists. split.
    + rewrite Hout, run_entry_out, <- !app_assoc. reflexivity.
    + simpl. by rewrite forallb_app, Hevs.
  - rewrite (run_try_uncaught _ _ _ _ Hloop Hexc). simpl.
    split; [done |]. split; [done |]. eexists. split.
    + rewrite Hout, run_entry_out, <- !app_assoc. reflexivity.
    + simpl. by rewrite forallb_app, Hevs.
Qed.


(** A pass leaves the loop by [break] only through the quit branch. *)
Lemma run_body_Break m m1 :
  run_body w m = (Ret Break, m1) ->
  is_running (self m1) = false
  ∧ ∃ pre, out m1 = pre ++ [EPrint "Closing scanner..."].
Proof.
  intros Hbody.
  destruct (run_show w m) as [[frame | e |] m'] eqn:Hshow;
    [| by rewrite (run_body_show_raised _ _ _ Hshow) in Hbody
     | unfold run_body in Hbody; by rewrite bind_run, Hshow in Hbody].
  rewrite (run_body_shown _ _ _ Hshow) in Hbody.
  pose proof (run_keys_cases w frame m') as H. cbv zeta in H.
  destruct (waitKey_at w (n_key (cur m'))) as [e | k].
  { destruct H as (m2 & H & _). congruence. }
  destruct H as (mk & _ & _ & _ & _ & _ & _ & _ & H).
  destruct (_ && _).
  { rewrite H in Hbody. by destruct (capture w frame mk) as [[[] | e |] m2]. }
  destruct (_ || _); [| congruence].
  destruct H as (m2 & H & Hout & Hstop & _).
  assert (m2 = m1) as -> by congruence. eauto.
Qed.

(** The loop ends normally only by that [break]: nothing else clears
    [is_running]. *)
Lemma while_Ret fuel m m1 :
  is_running (self m) = true ->
  while_is_running fuel (run_body w) m = (Ret tt, m1) ->
  is_running (self m1) = false
  ∧ ∃ pre, out m1 = pre ++ [EPrint "Closing scanner..."].
Proof.
  revert m. induction fuel as [| fuel IH]; intros m Hrun; simpl; rewrite Hrun; [done |].
  pose proof (run_body_self w m) as Hself. pose proof (run_body_Break m) as Hbreak.
  destruct (run_body w m) as [[[|] | e |] m'] eqn:Hbody; try done.
  - apply IH. simpl in Hself. by rewrite Hself.
  - intros [= <-]. by apply Hbreak.
Qed.

Lemma run_try_Timeout fuel m m1 :
  while_is_running fuel (run_body w) m = (Timeout, m1) -> run_try w fuel m = (Timeout, m1).
Proof.
  intros Hloop. unfold run_try, try_except_Exception_finally. by rewrite Hloop.
Qed.

(** X8: [run()] returns only after the quit key or after a caught
    [Exception]: its last lines are the quit notice or the error line,
    then the teardown and the closing notice.  [is_running] is cleared
    in the first case only: the test of the [while] never ends the loop
    by itself. *)
Theorem run_ends_by_quit_or_error fuel m :
  fst (run w fuel m) = Ret tt ->
  ∃ pre,
    (out (snd (run w fuel m))
     = pre ++ [EPrint "Closing scanner..."; ERelease; EDestroyAllWindows;
               EPrint "Scanner closed!"]
     ∧ is_running (self (snd (run w fuel m))) = false)
    ∨ (∃ e, isinstance_Exception (exn_cls e) = true
            ∧ out (snd (run w fuel m))
              = pre ++ [EPrint ("Error during camera streaming: " +:+ exn_str e);
                        ERelease; EDestroyAllWindows; EPrint "Scanner closed!"]
            ∧ is_running (self (snd (run w fuel m))) = true).
Proof.
  rewrite run_unfold, bind_run.
  destruct (while_is_running fuel (run_body w) (run_entry m)) as [[[] | e |] m1] eqn:Hloop.
  - rewrite (run_try_ended w _ _ _ Hloop). simpl. intros _.
    destruct (while_Ret _ _ _ (run_entry_running m) Hloop) as (Hstop & pre & Hout).
    exists pre. left. split; [| done]. by rewrite Hout, <- !app_assoc.
  - destruct (isinstance_Exception (exn_cls e)) eqn:Hexc.
    + rewrite (run_try_caught w _ _ _ _ Hloop Hexc). simpl. intros _.
      exists (out m1). right. exists e. split; [done |].
      split; [by rewrite <- !app_assoc |].
      by rewrite (while_Raise_self w _ _ _ _ Hloop).
    + by rewrite (run_try_uncaught _ _ _ _ Hloop Hexc).
  - by rewrite (run_try_Timeout _ _ _ Hloop).
Qed.


Lemma keeps_older_refl m : keeps_older m m.
Proof. by intros i Hi. Qed.

Lemma keeps_older_length m m' : keeps_older m m' -> (length (heap m) <= length (heap m'))%nat.
Proof.
  intros H. destruct (le_lt_dec (length (heap m)) (length (heap m'))) as [| Hlt]; [done |].
  assert (length (heap m') < length (heap m))%nat as Hi by lia.
  pose proof (H _ Hi) as Heq. rewrite lookup_ge_None_2 in Heq by lia.
  symmetry in Heq. apply lookup_ge_None_1 in Heq. lia.
Qed.

Lemma keeps_older_trans m1 m2 m3 :
  keeps_older m1 m2 -> keeps_older m2 m3 -> keeps_older m1 m3.
Proof.
  intros H12 H23 i Hi. rewrite <- (H12 i Hi). apply H23.
  pose proof (keeps_older_length _ _ H12). lia.
Qed.

Lemma keeps_older_heap m m' : heap m' = heap m -> keeps_older m m'.
Proof. intros H i Hi. by rewrite H. Qed.

Lemma keeps_older_app m m' a : heap m' = heap m ++ [a] -> keeps_older m m'.
Proof. intros H i Hi. rewrite H. by apply lookup_app_l. Qed.

Lemma run_keys_keeps_older frame m : keeps_older m (snd (run_keys w frame m)).
Proof.
  pose proof (run_keys_cases w frame m) as H. cbv zeta in H.
  destruct (waitKey_at w (n_key (cur m))) as [e | k].
  { destruct H as (m' & -> & _ & _ & Hh & _). by apply keeps_older_heap. }
  destruct H as (mk & _ & _ & _ & Hh & _ & _ & _ & H).
  destruct (_ && _).
  - rewrite H. pose proof (capture_cases w frame mk) as Hc. cbv zeta in Hc.
    apply (keeps_older_trans _ mk); [by apply keeps_older_heap |].
    destruct (capture w frame mk) as [[[] | e |] m2]; simpl.
    + destruct Hc as (cm & _ & _ & _ & _ & Hh2 & _). by eapply keeps_older_app.
    + destruct Hc as (_ & _ & [(_ & _ & Hh2) | (cm & _ & _ & _ & Hh2)]);
        [by apply keeps_older_heap | by eapply keeps_older_app].
    + done.
  - destruct (_ || _).
    + destruct H as (m' & -> & _ & _ & Hh2 & _). by apply keeps_older_heap.
    + rewrite H. by apply keeps_older_heap.
Qed.

Lemma run_body_keeps_older m : keeps_older m (snd (run_body w m)).
Proof.
  pose proof (run_show_cases w m) as H. cbv zeta in H.
  destruct (run_show w m) as [[frame | e |] m1] eqn:Hshow; [| | done].
  - rewrite (run_body_shown _ _ _ Hshow).
    apply (keeps_older_trans _ m1); [| apply run_keys_keeps_older].
    by destruct H as (ok & fr & r & src & fps & nw & nh & b & _ & _ & _ & _ & _ & _ & _ & _ & _ & _ & _ & _ & _ & H).
  - rewrite (run_body_show_raised _ _ _ Hshow).
    by destruct H as (evs & _ & _ & _ & _ & _ & H & _).
Qed.

Lemma while_keeps_older fuel m :
  keeps_older m (snd (while_is_running fuel (run_body w) m)).
Proof.
  revert m. induction fuel as [| fuel IH]; intros m; simpl;
    (destruct (is_running (self m)); [| apply keeps_older_refl]);
    [apply keeps_older_refl |].
  pose proof (run_body_keeps_older m) as H.
  destruct (run_body w m) as [[[|] | e |] m1]; simpl in *; try done.
  eapply keeps_older_trans; [exact H | apply IH].
Qed.

Lemma run_try_heap fuel m :
  heap (snd (run_try w fuel m)) = heap (snd (while_is_running fuel (run_body w) m)).
Proof.
  unfold run_try, try_except_Exception_finally.
  destruct (while_is_running fuel (run_body w) m) as [[[] | e |] m1]; simpl; try done.
  by destruct (isinstance_Exception (exn_cls e)).
Qed.

(** X16: [run()] never writes to an array that existed before it was
    called: the overlay is drawn on the frame of the current pass
    only. *)
Theorem run_keeps_older_arrays fuel m i a :
  heap m !! i = Some a -> heap (snd (run w fuel m)) !! i = Some a.
Proof.
  intros Hi. rewrite run_unfold, bind_run.
  assert (heap (snd (run_try w fuel (run_entry m))) !! i = Some a) as H.
  { rewrite run_try_heap, <- Hi.
    apply (while_keeps_older fuel (run_entry m)). by eapply lookup_lt_Some. }
  by destruct (run_try w fuel (run_entry m)) as [[[] | e |] m1].
Qed.

(** X14: with live rendering, whatever a pass hands to the transform is
    the frame as the camera delivered it in that pass. *)
Theorem live_pass_transforms_what_was_read m :
  live_render (estimator (self m)) = true ->
  ∃ evs, out (snd (run_body w m)) = out m ++ evs
         ∧ ∀ arg, In (EColormap arg) evs ->
             ∃ ok, camera_read_at w (n_read (cur m)) = inr (ok, arg).
Proof.
  intros Hlr. pose proof (run_show_cases w m) as H. cbv zeta in H. rewrite Hlr in H.
  destruct (run_show w m) as [[frame | e |] m1] eqn:Hshow; [| | done].
  - rewrite (run_body_shown _ _ _ Hshow).
    assert (self m1 = self m) as Hself by (rewrite <- (run_show_self w m); by rewrite Hshow).
    destruct H as (ok & fr & r & src & fps & nw & nh & b & Hread & _ & _ & _ & _ & _ & _ & _ & _ & Hout & _).
    assert (∃ evs, out (snd (run_keys w frame m1)) = out m1 ++ evs
                   ∧ ∀ arg, ¬ In (EColormap arg) evs) as (evs & Hevs & Hno).
    { pose proof (run_keys_cases w frame m1) as Hk. cbv zeta in Hk.
      destruct (waitKey_at w (n_key (cur m1))) as [e | k].
      { destruct Hk as (m' & -> & Ho & _). exists [].
        split; [simpl; by rewrite Ho, app_nil_r | by intros arg []]. }
      destruct Hk as (mk & _ & Ho & _ & _ & _ & _ & _ & Hk).
      rewrite Hself, Hlr in Hk. simpl negb in Hk. rewrite andb_false_r in Hk.
      destruct (_ || _).
      - destruct Hk as (m' & -> & Ho' & _). eexists. simpl.
        split; [by rewrite Ho', Ho, <- app_assoc |].
        intros arg [Hin | [Hin | []]]; discriminate.
      - rewrite Hk. eexists. split; [exact Ho |]. intros arg [Hin | []]; discriminate. }
    eexists. split; [by rewrite Hevs, Hout, <- app_assoc |].
    intros arg Hin. simpl in Hin.
    destruct Hin as [Hin | [Hin | [Hin | [Hin | Hin]]]]; try discriminate.
    + injection Hin as <-. eauto.
    + by destruct (Hno arg).
  - rewrite (run_body_show_raised _ _ _ Hshow).
    destruct H as (evs & Hout & _ & _ & _ & _ & _ & Harg).
    exists evs. split; [done |]. intros arg Hin. by destruct (Harg arg Hin).
Qed.


(** X15: when the first half of a pass returns, the window of the loop
    holds the frame read in that pass (its depth map with live
    rendering), with the overlay of the frame rate drawn on it, resampled
    by area to the rounded float products of its width and height with
    the scale; the other windows are as they were. *)
Theorem pass_shows_scaled_overlay m frame m1 :
  let est := estimator (self m) in
  let s := __scale (self m) in
  run_show w m = (Ret frame, m1) ->
  ∃ ok fr src fps new_width new_height,
    camera_read_at w (n_read (cur m)) = inr (ok, fr)
    ∧ (if live_render est then colormap est fr = inr src else fr = Some src)
    ∧ frame_rate (perf_counter_at w (n_perf (cur m)))
        (perf_counter_at w (S (n_perf (cur m)))) = inr fps
    ∧ round_product (nth 1 (shape src) 0) s = inr new_width
    ∧ round_product (nth 0 (shape src) 0) s = inr new_height
    ∧ windows m1 !! window_label (live_render est)
      = Some {| shape := resized_shape (shape src) (new_width, new_height);
                px := Resampled (new_width, new_height) INTER_AREA
                        (Annotated (fps_overlay fps) (px src)) |}
    ∧ (∀ title, title ≠ window_label (live_render est) ->
         windows m1 !! title = windows m !! title).
Proof.
  intros est s Hshow. pose proof (run_show_cases w m) as H. cbv zeta in H.
  rewrite Hshow in H.
  destruct H as (ok & fr & r & src & fps & nw & nh & b & Hread & Hsrc & Hfps & Hlen & Hnw & Hnh
                 & Hres & _ & _ & _ & Hwin & _).
  exists ok, fr, src, fps, nw, nh. split; [done |].
  split; [fold est in Hsrc; destruct (live_render est); [done | by destruct Hsrc] |].
  split; [done |]. split; [done |]. split; [done |].
  rewrite Hwin. split; [| intros title Hne; by rewrite lookup_insert_ne].
  rewrite lookup_insert_eq. f_equal.
  by apply resize_result in Hres as (-> & _).
Qed.

(** X17: [__resize] returns only for a live array of three dimensions
    with positive height and width and a positive factor, when the
    rounded float products of width and height with the factor are at
    least 1 and fit a C [int], and the platform has memory for the
    result; the result is a new array of these dimensions and nothing
    else changes.  When it raises, arrays, object, windows and output
    are as they were. *)
Theorem resize_outcome image factor m :
  match __resize w image factor m with
  | (Ret r', m') =>
      ∃ r a h w' c new_width new_height,
        image = Some r ∧ heap m !! r = Some a ∧ shape a = [h; w'; c]
        ∧ 0 < h ∧ 0 < w' ∧ (0 < factor)%Q
        ∧ round_product w' factor = inr new_width
        ∧ round_product h factor = inr new_height
        ∧ 1 <= new_width <= INT_MAX ∧ 1 <= new_height <= INT_MAX
        ∧ resize_at w (n_resize (cur m)) = None
        ∧ r' = Some (length (heap m))
        ∧ heap m' = heap m ++ [{| shape := resized_shape (shape a) (new_width, new_height);
                                  px := Resampled (new_width, new_height) INTER_AREA
                                          (px a) |}]
        ∧ self m' = self m ∧ windows m' = windows m ∧ out m' = out m
  | (Raise e, m') =>
      heap m' = heap m ∧ self m' = self m ∧ windows m' = windows m ∧ out m' = out m
  | (Timeout, _) => False
  end.
Proof.
  unfold __resize. rewrite bind_run. unfold unpack_shape.
  destruct image as [r |]; simpl; [| done].
  destruct (heap m !! r) as [a |] eqn:Hr; simpl; [| done].
  destruct (shape a) as [| h [| w' [| c [| ? ?]]]] eqn:Hsh; simpl; try done.
  rewrite bind_run. destruct (round_product w' factor) as [e | nw] eqn:Hnw; simpl; [done |].
  rewrite bind_run. destruct (round_product h factor) as [e | nh] eqn:Hnh; simpl; [done |].
  unfold cv2_resize. simpl. rewrite Hr.
  destruct (Cv2.resize _ _ _) as [e | b] eqn:Hres; simpl; [done |].
  destruct (resize_at w _) eqn:Halloc; simpl; [done |].
  apply resize_result in Hres as (-> & Hh & Hw & Hdw & Hdh); [| by rewrite Hsh].
  rewrite Hsh in *. simpl in *.
  destruct (round_product_pos _ _ _ Hnw) as [_ Hf]; [lia | lia |].
  exists r, a, h, w', c, nw, nh. rewrite Hsh. repeat split; done || lia.
Qed.

(** X18: when [capture] raises, no window is opened or replaced.  If the
    transform failed, nothing was logged; if showing the window failed,
    the line [Frame captured!] has been printed all the same. *)
Theorem capture_failure_opens_nothing frame m e m' :
  capture w frame m = (Raise e, m') ->
  let arg := deref m frame in
  let d := now_at w (n_now (cur m)) in
  let d' := now_at w (S (n_now (cur m))) in
  windows m' = windows m ∧ self m' = self m
  ∧ ((colormap (estimator (self m)) arg = inl e
      ∧ out m' = out m ++ [ECall_capture frame arg; EColormap arg])
     ∨ (∃ cm, colormap (estimator (self m)) arg = inr cm
              ∧ imshow_at w (n_show (cur m)) = Some e
              ∧ out m' = out m ++ [ECall_capture frame arg; EColormap arg;
                                   EPrint (capture_line d d')])).
Proof.
  intros Hcap arg d d'. pose proof (capture_cases w frame m) as H. cbv zeta in H.
  rewrite Hcap in H. destruct H as (Hself & Hwin & [(Hcm & Hout & _) | (cm & Hcm & Him & Hout & _)]).
  - split; [done |]. split; [done |]. by left.
  - split; [done |]. split; [done |]. right. by exists cm.
Qed.

End Extras.

#[export] Instance same_configuration_frame : Frame same_configuration.
Proof.
  split; unfold same_configuration; try done.
  intros m1 m2 m3 (? & ? & ?) (? & ? & ?). repeat split; congruence.
Qed.

(** X7: [run()] changes nothing of the object but [is_running]: camera
    number, scale and estimator are as before, and so is [__repr__]. *)
Theorem run_keeps_configuration w fuel m :
  camera_num (self (snd (run w fuel m))) = camera_num (self m)
  ∧ __scale (self (snd (run w fuel m))) = __scale (self m)
  ∧ estimator (self (snd (run w fuel m))) = estimator (self m)
  ∧ fst (__repr__ (snd (run w fuel m))) = fst (__repr__ m).
Proof.
  assert (sound same_configuration (estimator (self m)) (run w fuel) (λ _, True)) as Hs.
  { apply sound_run_fine; try typeclasses eauto; done. }
  destruct (Hs m eq_refl) as ((Hc & Hsc & He) & _).
  repeat split; try done. unfold __repr__. simpl. by rewrite Hc, He.
Qed.

(** X19, a round trip: a value assigned through [obj.set_scale = v] is
    what [obj.scale] and [obj.set_scale] then read, whatever the value and
    whatever the instance held before; no other attribute changes. *)
Theorem assigned_scale_is_read_back (d : gmap string Attr.pyval) (v : Attr.pyval) :
  ∃ d', Attr.py_setattr d "set_scale" v = inr d'
        ∧ Attr.py_getattr d' "scale" = inr v
        ∧ Attr.py_getattr d' "set_scale" = inr v
        ∧ ∀ name, name ≠ Attr.mangled_scale -> d' !! name = d !! name.
Proof.
  exists (<[Attr.mangled_scale := v]> d). split; [reflexivity |].
  assert (Attr.scale_body (<[Attr.mangled_scale := v]> d) = inr v) as H.
  { unfold Attr.scale_body. by rewrite lookup_insert_eq. }
  split; [exact H |]. split; [exact H |].
  intros name Hne. by apply lookup_insert_ne.
Qed.


(** ** The further theorems at work on the scenarios *)

Lemma other_keys_are_ignored_witness :
  ∃ m', run_keys (studio [97]) (Some O) (boot false) = (Ret Next, m')
        ∧ out m' = [EWaitKey 10 97].
Proof.
  destruct (other_keys_are_ignored (studio [97]) (Some O) (boot false) 97)
    as (m' & Hrun & Hout & _).
  - reflexivity.
  - discriminate.
  - discriminate.
  - discriminate.
  - exists m'. split; [exact Hrun | exact Hout].
Defined.

Lemma snapshot_keeps_streaming_witness :
  ∃ m2, run_body (studio [32]) (run_entry (boot false)) = (Ret Next, m2)
        ∧ is_running (self m2) = true.
Proof.
  destruct (snapshot_keeps_streaming (studio [32]) (run_entry (boot false)) (Some O)
              (snd (run_show (studio [32]) (run_entry (boot false))))
              {| shape := [480; 640; 3];
                 px := FalseColor (Annotated (fps_overlay 60) (Sensor 0)) |} O)
    as (m2 & Hbody & _ & Hrun & _).
  - reflexivity.
  - reflexivity.
  - by vm_compute.
  - reflexivity.
  - reflexivity.
  - reflexivity.
  - exists m2. split; [exact Hbody | exact Hrun].
Defined.

Lemma failed_capture_ends_run_witness :
  ∃ m2, run_try (studio [32]) (0 + 1) (run_entry (boot_with out_of_memory 1)) = (Ret tt, m2)
        ∧ windows m2 = ∅.
Proof.
  destruct (failed_capture_ends_run (studio [32]) O
              (run_entry (boot_with out_of_memory 1)) (run_entry (boot_with out_of_memory 1))
              (Some O)
              (snd (run_show (studio [32]) (run_entry (boot_with out_of_memory 1))))
              (Exn RuntimeError "CUDA out of memory") O)
    as (m2 & Htry & _ & Hwin).
  - apply passes_O.
  - reflexivity.
  - reflexivity.
  - by vm_compute.
  - reflexivity.
  - reflexivity.
  - reflexivity.
  - exists m2. split; [exact Htry | exact Hwin].
Defined.

Lemma failed_read_ends_run_witness :
  ∃ e m2, isinstance_Exception (exn_cls e) = true
          ∧ run_try unplugged (0 + 1) (run_entry (boot false)) = (Ret tt, m2).
Proof.
  destruct (failed_read_ends_run unplugged O (run_entry (boot false)) (run_entry (boot false))
              false O)
    as (e & m2 & Hexc & Htry & _).
  - apply passes_O.
  - reflexivity.
  - reflexivity.
  - reflexivity.
  - exists e, m2. split; [exact Hexc | exact Htry].
Defined.

Lemma nonpositive_scale_shows_nothing_witness :
  windows (snd (run (studio [27]) 1 (boot_with (midas false) 0))) = ∅.
Proof.
  destruct (nonpositive_scale_shows_nothing (studio [27]) O (boot_with (midas false) 0))
    as (_ & Hwin & _).
  - discriminate.
  - exact Hwin.
Defined.

Lemma run_ends_by_quit_or_error_witness :
  ∃ pre,
    (out (snd (run (studio [27]) 3 (boot false)))
     = pre ++ [EPrint "Closing scanner..."; ERelease; EDestroyAllWindows;
               EPrint "Scanner closed!"]
     ∧ is_running (self (snd (run (studio [27]) 3 (boot false)))) = false)
    ∨ (∃ e, isinstance_Exception (exn_cls e) = true
            ∧ out (snd (run (studio [27]) 3 (boot false)))
              = pre ++ [EPrint ("Error during camera streaming: " +:+ exn_str e);
                        ERelease; EDestroyAllWindows; EPrint "Scanner closed!"]
            ∧ is_running (self (snd (run (studio [27]) 3 (boot false)))) = true).
Proof. apply (run_ends_by_quit_or_error (studio [27]) 3 (boot false)). by vm_compute. Defined.

Lemma run_keeps_older_arrays_witness :
  heap (snd (run (studio [-1; 113]) 5 (with_heap [vga 7] (boot false)))) !! O = Some (vga 7).
Proof.
  apply (run_keeps_older_arrays (studio [-1; 113]) 5 (with_heap [vga 7] (boot false))).
  reflexivity.
Defined.

Lemma live_pass_transforms_what_was_read_witness :
  ∃ evs, out (snd (run_body (studio []) (boot true))) = out (boot true) ++ evs
         ∧ ∀ arg, In (EColormap arg) evs ->
             ∃ ok, camera_read_at (studio []) (n_read (cur (boot true))) = inr (ok, arg).
Proof. apply (live_pass_transforms_what_was_read (studio []) (boot true)). reflexivity. Defined.

Lemma pass_shows_scaled_overlay_witness :
  ∃ ok fr src fps new_width new_height,
    camera_read_at (studio []) 0 = inr (ok, fr)
    ∧ fr = Some src
    ∧ round_product (nth 1 (shape src) 0) 1 = inr new_width
    ∧ windows (snd (run_show (studio []) (boot false))) !! "Standard Camera"
      = Some {| shape := resized_shape (shape src) (new_width, new_height);
                px := Resampled (new_width, new_height) INTER_AREA
                        (Annotated (fps_overlay fps) (px src)) |}.
Proof.
  destruct (pass_shows_scaled_overlay (studio []) (boot false) (Some O)
              (snd (run_show (studio []) (boot false))))
    as (ok & fr & src & fps & nw & nh & Hread & Hsrc & _ & Hnw & _ & Hwin & _).
  - by vm_compute.
  - exists ok, fr, src, fps, nw, nh.
    split; [exact Hread | split; [exact Hsrc | split; [exact Hnw | exact Hwin]]].
Defined.

Lemma capture_failure_opens_nothing_witness :
  windows (snd (capture (studio []) None (boot false))) = windows (boot false).
Proof.
  destruct (capture_failure_opens_nothing (studio []) None (boot false)
              (Exn TypeError "colormap: expected an image")
              (snd (capture (studio []) None (boot false))))
    as (Hwin & _).
  - by vm_compute.
  - exact Hwin.
Defined.


(** ** The quit key, [__resize] and the scale *)

Section Revised.

Context (w : Platform).

#[local] Arguments bind : simpl never.


(** The display steps of a pass on a frame that can be resized. *)
Lemma display_steps_Ret (m1 : machine) r src h w' c new_width new_height
    (frame : option nat) label fps :
  heap m1 !! r = Some src ->
  shape src = [h; w'; c] -> 0 < h -> 0 < w' ->
  round_product w' (__scale (self m1)) = inr new_width ->
  round_product h (__scale (self m1)) = inr new_height ->
  1 <= new_width <= INT_MAX -> 1 <= new_height <= INT_MAX ->
  resize_at w (n_resize (cur m1)) = None ->
  imshow_at w (n_show (cur m1)) = None ->
  ∃ m2,
    (cv2_putText (Some r) (fps_overlay fps) ;;;
     factor <- scale ;;;
     resized <- __resize w (Some r) factor ;;;
     cv2_imshow w label resized ;;;
     ret frame) m1 = (Ret frame, m2)
    ∧ windows m2 = <[label := shown src fps (new_width, new_height)]> (windows m1)
    ∧ out m2 = out m1 ++ [EPutText r (fps_overlay fps);
                          EImshow label (shown src fps (new_width, new_height))].
Proof.
  intros Hr Hsh Hh Hw Hnw Hnh Hdw Hdh Halloc Hshow.
  unfold bind, cv2_putText, scale, __resize, bind, unpack_shape, cv2_resize,
    cv2_imshow, ret, lift.
  rewrite Hr. simpl.
  rewrite list_lookup_insert_eq by (by eapply lookup_lt_Some). simpl.
  rewrite Hsh. simpl. rewrite Hnw, Hnh. simpl.
  rewrite list_lookup_insert_eq by (by eapply lookup_lt_Some).
  rewrite (resize_accepts (draw (fps_overlay fps) src) h w' c) by done.
  rewrite Halloc. simpl.
  rewrite lookup_app_r, length_insert, Nat.sub_diag by (by rewrite length_insert).
  simpl. rewrite Hshow. simpl.
  eexists. split; [reflexivity |]. simpl. split; [done |]. by rewrite <- app_assoc.
Qed.

(** The first half of a pass when nothing fails: it returns, and the
    window of the loop shows the display frame, annotated, at the size
    the scale gives. *)
Lemma run_show_Ret m ok a src fps h w' c new_width new_height :
  let est := estimator (self m) in
  camera_read_at w (n_read (cur m)) = inr (ok, Some a) ->
  (if live_render est then colormap est (Some a) = inr src else src = a) ->
  frame_rate (perf_counter_at w (n_perf (cur m)))
    (perf_counter_at w (S (n_perf (cur m)))) = inr fps ->
  shape src = [h; w'; c] -> 0 < h -> 0 < w' ->
  round_product w' (__scale (self m)) = inr new_width ->
  round_product h (__scale (self m)) = inr new_height ->
  1 <= new_width <= INT_MAX -> 1 <= new_height <= INT_MAX ->
  resize_at w (n_resize (cur m)) = None ->
  imshow_at w (n_show (cur m)) = None ->
  ∃ m1,
    run_show w m = (Ret (Some (length (heap m))), m1)
    ∧ windows m1
      = <[window_label (live_render est) := shown src fps (new_width, new_height)]>
          (windows m).
Proof.
  intros est Hread Hsrc Hfps Hsh Hh Hw Hnw Hnh Hdw Hdh Halloc Hshow.
  unfold frame_rate in Hfps.
  destruct (truediv_1 _) as [e | q] eqn:Hdiv; [done |].
  unfold run_show.
  rewrite bind_run. simpl. rewrite bind_run. unfold camera_read. simpl. rewrite Hread. simpl.
  rewrite bind_run. simpl. rewrite bind_run. fold est.
  destruct (live_render est) eqn:Hlr; simpl.
  - unfold estimator_colormap. simpl. fold est.
    rewrite lookup_app_r, Nat.sub_diag by done. simpl. rewrite Hsrc. simpl.
    rewrite bind_run. simpl. rewrite bind_run, Hdiv. simpl.
    rewrite bind_run, Hfps. simpl.
    rewrite bind_run. simpl. fold est. rewrite Hlr.
    lazymatch goal with
    | |- context [bind (cv2_putText (Some ?r) ?o) ?k ?m1] =>
        edestruct (display_steps_Ret m1 r src h w' c new_width new_height
                     (Some (length (heap m))) "Depth Capture" fps)
          as (m2 & Hrun & Hwin & _)
    end; try done.
    { simpl. by rewrite lookup_app_r, Nat.sub_diag. }
    exists m2. split; [exact Hrun | by rewrite Hwin].
  - subst src. rewrite bind_run. simpl. rewrite bind_run, Hdiv. simpl.
    rewrite bind_run, Hfps. simpl.
    rewrite bind_run. simpl. fold est. rewrite Hlr.
    lazymatch goal with
    | |- context [bind (cv2_putText (Some ?r) ?o) ?k ?m1] =>
        edestruct (display_steps_Ret m1 r a h w' c new_width new_height
                     (Some (length (heap m))) "Standard Camera" fps)
          as (m2 & Hrun & Hwin & _)
    end; try done.
    { simpl. by rewrite lookup_app_r, Nat.sub_diag. }
    exists m2. split; [exact Hrun | by rewrite Hwin].
Qed.

(** C4, amended: for an image of shape [(h, w, c)] and a positive float
    factor, the target dimensions are the float products [w * factor]
    and [h * factor], rounded to the nearest integer, ties to even.
    When both are at least 1 and fit a C [int], and the platform has
    memory for the result, [__resize] returns a reference to a new
    array of that height and width, and the input array, like every
    array alive before the call, is as it was.  Otherwise it raises
    [cv2.error].  At factor 1.0 the dimensions are [h] and [w]. *)
Theorem resize_dimensions m r a h w' c factor new_width new_height :
  heap m !! r = Some a ->
  shape a = [h; w'; c] ->
  (0 < factor)%Q ->
  round_product w' factor = inr new_width ->
  round_product h factor = inr new_height ->
  (1 <= new_width <= INT_MAX -> 1 <= new_height <= INT_MAX ->
   resize_at w (n_resize (cur m)) = None ->
   ∃ a' tail m',
     __resize w (Some r) factor m = (Ret (Some (length (heap m))), m')
     ∧ heap m' = heap m ++ [a']
     ∧ shape a' = new_height :: new_width :: tail
     ∧ heap m !! length (heap m) = None
     ∧ heap m' !! r = Some a
     ∧ (∀ i b, heap m !! i = Some b -> heap m' !! i = Some b))
  ∧ (¬ (1 <= new_width <= INT_MAX ∧ 1 <= new_height <= INT_MAX) ->
     ∃ e m', __resize w (Some r) factor m = (Raise e, m')
             ∧ exn_cls e = cv2_error ∧ heap m' = heap m)
  ∧ (factor = 1%Q -> 0 < h < 2 ^ 53 -> 0 < w' < 2 ^ 53 ->
     new_height = h ∧ new_width = w').
Proof.
  intros Hr Hsh Hf Hnw Hnh.
  assert (__resize w (Some r) factor m
          = cv2_resize w (Some r) (new_width, new_height) INTER_AREA m) as Hstep.
  { unfold __resize. rewrite bind_run. unfold unpack_shape. simpl. rewrite Hr, Hsh.
    cbn [fst snd]. rewrite bind_run, Hnw. simpl. by rewrite bind_run, Hnh. }
  rewrite Hstep. unfold cv2_resize. simpl. rewrite Hr.
  split; [| split].
  - intros Hdw Hdh Halloc.
    assert (0 < h) by (apply (round_product_pos_l h factor new_height); [done | lia | done]).
    assert (0 < w') by (apply (round_product_pos_l w' factor new_width); [done | lia | done]).
    rewrite (resize_accepts a h w' c) by done. rewrite Halloc.
    do 3 eexists. split; [reflexivity |]. simpl. rewrite Hsh. simpl.
    split; [reflexivity |]. split; [reflexivity |].
    split; [by apply lookup_ge_None_2 |].
    split; [by apply lookup_app_l_Some |].
    intros i b Hi. by apply lookup_app_l_Some.
  - intros Hno.
    destruct (resize_refuses a (new_width, new_height) INTER_AREA) as (e & -> & Hcls);
      [by rewrite Hsh | done |].
    by do 2 eexists.
  - intros -> Hhr Hwr.
    rewrite (round_product_1 h Hhr) in Hnh. rewrite (round_product_1 w' Hwr) in Hnw.
    split; congruence.
Qed.

(** C8, amended: the setter behind [obj.set_scale = v] stores whatever
    value it is given and changes nothing else, whatever the loop state;
    the assignment on the object is this setter, and the accessor then
    returns the value.  The next pass resizes by it: when the pass reads
    a frame and nothing fails, the window of the loop shows the frame at
    the rounded float products of its width and height with the new
    value; whenever the pass shows its window, the size is that one; and
    with a value that is zero or negative the pass raises and shows
    nothing.  The windows of other titles are as they were. *)
Theorem set_scale_takes_effect (m : machine) (new_scale : Q) :
  let m' := snd (set_scale new_scale m) in
  let est := estimator (self m) in
  let label := window_label (live_render est) in
  (set_scale new_scale m = (Ret tt, m')
   ∧ __scale (self m') = new_scale
   ∧ scale m' = (Ret new_scale, m')
   ∧ is_running (self m') = is_running (self m)
   ∧ estimator (self m') = est
   ∧ camera_num (self m') = camera_num (self m)
   ∧ heap m' = heap m ∧ windows m' = windows m ∧ out m' = out m ∧ cur m' = cur m
   ∧ Attr.py_setattr (Attr.instance_dict (self m)) "set_scale" (Attr.VFloat new_scale)
     = inr (Attr.instance_dict (self m')))
  ∧ (∀ ok a src fps h w' c new_width new_height,
       camera_read_at w (n_read (cur m)) = inr (ok, Some a) ->
       (if live_render est then colormap est (Some a) = inr src else src = a) ->
       frame_rate (perf_counter_at w (n_perf (cur m)))
         (perf_counter_at w (S (n_perf (cur m)))) = inr fps ->
       shape src = [h; w'; c] -> 0 < h -> 0 < w' ->
       round_product w' new_scale = inr new_width ->
       round_product h new_scale = inr new_height ->
       1 <= new_width <= INT_MAX -> 1 <= new_height <= INT_MAX ->
       resize_at w (n_resize (cur m)) = None ->
       imshow_at w (n_show (cur m)) = None ->
       ∃ frame m1,
         run_show w m' = (Ret frame, m1)
         ∧ windows m1 = <[label := shown src fps (new_width, new_height)]> (windows m))
  ∧ (∀ frame m1,
       run_show w m' = (Ret frame, m1) ->
       ∃ ok fr src fps new_width new_height,
         camera_read_at w (n_read (cur m)) = inr (ok, fr)
         ∧ (if live_render est then colormap est fr = inr src else fr = Some src)
         ∧ frame_rate (perf_counter_at w (n_perf (cur m)))
             (perf_counter_at w (S (n_perf (cur m)))) = inr fps
         ∧ round_product (nth 1 (shape src) 0) new_scale = inr new_width
         ∧ round_product (nth 0 (shape src) 0) new_scale = inr new_height
         ∧ windows m1 = <[label := shown src fps (new_width, new_height)]> (windows m))
  ∧ ((new_scale <= 0)%Q ->
     ∃ e m1, run_show w m' = (Raise e, m1) ∧ windows m1 = windows m).
Proof.
  intros m' est label. split; [| split; [| split]].
  - repeat (split; [reflexivity |]). simpl.
    by rewrite <- AttrFacts.instance_dict_set_scale.
  - intros ok a src fps h w' c nw nh Hread Hsrc Hfps Hsh Hh Hw Hnw Hnh Hdw Hdh Halloc Hshow.
    destruct (run_show_Ret m' ok a src fps h w' c nw nh) as (m1 & Hrun & Hwin); try done.
    by exists (Some (length (heap m))), m1.
  - intros frame m1 Hshow. pose proof (run_show_cases w m') as H. cbv zeta in H.
    rewrite Hshow in H.
    destruct H as (ok & fr & r & src & fps & nw & nh & b & Hread & Hsrc & Hfps & Hlen & Hnw
                   & Hnh & Hres & _ & _ & _ & Hwin & _).
    exists ok, fr, src, fps, nw, nh. split; [done |].
    split; [simpl in Hsrc; fold est in Hsrc; destruct (live_render est);
            [done | by destruct Hsrc] |].
    split; [done |]. split; [done |]. split; [done |].
    rewrite Hwin. apply resize_result in Hres as (-> & _); [| done]. done.
  - intros Hneg. pose proof (run_show_cases w m') as H. cbv zeta in H.
    destruct (run_show w m') as [[frame | e |] m1]; [| | done].
    + destruct H as (ok & fr & r & src & fps & nw & nh & b & _ & _ & _ & Hlen & Hnw & _
                     & Hres & _).
      by destruct (resize_nonpositive _ _ _ _ _ _ Hneg Hnw Hres Hlen).
    + destruct H as (evs & _ & _ & Hwin & _). by exists e, m1.
Qed.

End Revised.


(** C4 as stated fails: a 5 by 5 image and the positive factor [0.1].  The
    float product [5 * 0.1] is exactly one half, which rounds to the even
    integer 0; the platform refuses an empty target size, and [__resize]
    raises instead of returning an image. *)
Lemma resize_tiny_factor_raises :
  (0 < double_0_1)%Q
  ∧ match int_mul_float 5 double_0_1 with
    | inr (Finite p) => (p == 1 # 2)%Q
    | _ => False
    end
  ∧ round_product 5 double_0_1 = inr 0
  ∧ fst (__resize (studio []) (Some O) double_0_1 (with_heap [tile] (boot false)))
    = Raise (Exn cv2_error "resize: inv_scale_x > 0")
  ∧ heap (snd (__resize (studio []) (Some O) double_0_1 (with_heap [tile] (boot false))))
    = [tile].
Proof.
  split; [reflexivity |]. split; [vm_compute; reflexivity |].
  split; [vm_compute; reflexivity |]. split; vm_compute; reflexivity.
Qed.

(** C8 as stated fails: the call [set_scale(v)] on the object.  Reading
    [obj.set_scale] runs the getter and gives the float, and calling a
    float raises [TypeError]: the setter does not run. *)
Lemma set_scale_call_raises :
  Attr.py_getattr (Attr.instance_dict (camera0 false)) "set_scale" = inr (Attr.VFloat 1)
  ∧ Attr.py_call_attr (Attr.instance_dict (camera0 false)) "set_scale"
    = inl (Exn TypeError "'float' object is not callable").
Proof. split; reflexivity. Qed.


Lemma resize_dimensions_witness :
  ∃ a' tail m',
    __resize (studio []) (Some O) (1 # 2) (with_heap [vga 0] (boot false))
    = (Ret (Some 1%nat), m')
    ∧ heap m' = [vga 0] ++ [a']
    ∧ shape a' = 240 :: 320 :: tail.
Proof.
  destruct (resize_dimensions (studio []) (with_heap [vga 0] (boot false))
              O (vga 0) 480 640 3 (1 # 2) 320 240)
    as (Hret & _).
  - reflexivity.
  - reflexivity.
  - reflexivity.
  - vm_compute. reflexivity.
  - vm_compute. reflexivity.
  - destruct Hret as (a' & tail & m' & Hres & Hheap & Hshape & _).
    + split; discriminate.
    + split; discriminate.
    + reflexivity.
    + exists a', tail, m'. split; [exact Hres | split; [exact Hheap | exact Hshape]].
Defined.

Lemma set_scale_takes_effect_witness :
  ∃ frame m1,
    run_show (studio []) (snd (set_scale (1 # 2) (boot false))) = (Ret frame, m1)
    ∧ windows m1
      = <["Standard Camera" := {| shape := [240; 320; 3];
                                  px := Resampled (320, 240) INTER_AREA
                                          (Annotated (fps_overlay 60) (Sensor 0)) |}]> ∅.
Proof.
  destruct (set_scale_takes_effect (studio []) (boot false) (1 # 2)) as (_ & Hnext & _).
  destruct (Hnext true (vga 0) (vga 0) 60 480 640 3 320 240) as (frame & m1 & Hrun & Hwin).
  - reflexivity.
  - reflexivity.
  - vm_compute. reflexivity.
  - reflexivity.
  - reflexivity.
  - reflexivity.
  - vm_compute. reflexivity.
  - vm_compute. reflexivity.
  - split; discriminate.
  - split; discriminate.
  - reflexivity.
  - reflexivity.
  - exists frame, m1. split; [exact Hrun | exact Hwin].
Defined.
